(** * DataGen agent backend: a shallow embedding of [backend/server.py]

    The development follows the layout of the Python module:
    text helpers ([_slugify]), the JSON file tools ([write_json],
    [read_json]), the sample-user generator ([generate_sample_user],
    [save_users]), the tool registry and the bounded tool-calling loop
    ([run_chat]).

    Modelling conventions.
    - A Python [str] is kept as the Rocq [string] of its UTF-8 bytes (a
      lone surrogate, which a [str] may hold, as the three bytes the same
      scheme gives it).  An ASCII character is one byte below 128 and
      every byte of any other character is above 127, so the pattern of
      [_slugify], the delimiters of JSON and the formatting of messages
      act on the bytes as they do on the characters.  What depends on the
      Unicode tables, [str.lower] and [str.strip], is an interface
      ([StrLib]).
    - A Python [int] is a [Z]; the limit the interpreter puts on the
      number of digits of an integer converted to or from text is not
      modelled.
    - Code that raises returns [Raise e]; code with side effects (files,
      [random], the clock) threads a [World] explicitly.
    - Whether the recursion limit of the interpreter lets [json] encode a
      value or decode a text is an interface ([Interpreter]). *)

From Stdlib Require Import ZArith List String Ascii Lia Bool.
From Stdlib Require Import DecimalString DecimalZ DecimalPos DecimalFacts.
From stdpp Require Import gmap strings.

Local Open Scope Z_scope.

(* ===================================================================== *)
(** ** Characters and text helpers *)
(* ===================================================================== *)

Module Text.

Definition code (c : ascii) : N := N_of_ascii c.

Definition in_range (lo hi : N) (c : ascii) : bool :=
  ((lo <=? code c) && (code c <=? hi))%N.

Definition is_lower (c : ascii) : bool := in_range 97 122 c.
Definition is_upper (c : ascii) : bool := in_range 65 90 c.
Definition is_digit (c : ascii) : bool := in_range 48 57 c.

(** [A-Za-z0-9] *)
Definition is_alnum (c : ascii) : bool :=
  is_lower c || is_upper c || is_digit c.

(** The bytes of ASCII characters. *)
Definition is_ascii (c : ascii) : bool := (code c <? 128)%N.

(** The white space of ASCII: TAB, LF, VT, FF, CR, FS, GS, RS, US and the
    space. *)
Definition is_space (c : ascii) : bool :=
  in_range 9 13 c || in_range 28 32 c.

(** Lowercasing within ASCII: the letters A-Z become a-z, every other
    byte is kept. *)
Definition lower_char (c : ascii) : ascii :=
  if is_upper c then ascii_of_N (code c + 32) else c.

Fixpoint lower (s : string) : string :=
  match s with
  | EmptyString => EmptyString
  | String c r => String (lower_char c) (lower r)
  end.

(** A lone surrogate (a code point from U+D800 to U+DFFF) is, in the
    scheme of UTF-8, the byte 237 followed by a byte from 160 to 191. *)
Fixpoint has_surrogate (s : string) : bool :=
  match s with
  | String a (String b _ as t) =>
      ((code a =? 237)%N && in_range 160 191 b) || has_surrogate t
  | _ => false
  end.

(** [len(s)]: the number of characters, that is of the bytes that do not
    continue a character begun before (those from 128 to 191). *)
Fixpoint py_len (s : string) : nat :=
  match s with
  | EmptyString => O
  | String c r => if in_range 128 191 c then py_len r else S (py_len r)
  end.

Definition is_empty (s : string) : bool :=
  match s with EmptyString => true | _ => false end.

(** [s.lstrip(chars)], [s.rstrip(chars)] and [s.strip(chars)], the set of
    characters given as a predicate. *)
Fixpoint lstrip (p : ascii -> bool) (s : string) : string :=
  match s with
  | EmptyString => EmptyString
  | String c r => if p c then lstrip p r else s
  end.

Fixpoint rstrip (p : ascii -> bool) (s : string) : string :=
  match s with
  | EmptyString => EmptyString
  | String c r =>
      let r' := rstrip p r in
      if p c && is_empty r' then EmptyString else String c r'
  end.

Definition strip (p : ascii -> bool) (s : string) : string :=
  rstrip p (lstrip p s).

(** [sep.join(parts)] *)
Definition join (sep : string) (parts : list string) : string :=
  String.concat sep parts.

(** Splitting a text at every character outside [p]: the result lists the
    (possibly empty) runs of [p]-characters between the separators, so it
    always has one more element than there are separators. *)
Fixpoint runs (p : ascii -> bool) (s : string) : list string :=
  match s with
  | EmptyString => [EmptyString]
  | String c r =>
      if p c then
        match runs p r with
        | w :: ws => String c w :: ws
        | [] => [String c EmptyString]
        end
      else EmptyString :: runs p r
  end.

(** The maximal non-empty runs of [p]-characters of [s], left to right. *)
Definition words (p : ascii -> bool) (s : string) : list string :=
  List.filter (fun w => negb (is_empty w)) (runs p s).

(** Decimal rendering of an integer, as [str(n)] gives it. *)
Definition str_of_Z (n : Z) : string := NilZero.string_of_int (Z.to_int n).

(** [needle in hay] *)
Definition contains (needle hay : string) : Prop :=
  exists pre post, hay = pre +:+ needle +:+ post.

End Text.

(** Every character of [s] satisfies [p]. *)
Fixpoint all_chars (p : ascii -> bool) (s : string) : bool :=
  match s with
  | EmptyString => true
  | String c r => p c && all_chars p r
  end.

(* ===================================================================== *)
(** ** [_slugify] *)
(* ===================================================================== *)

(** The character class of [_slug_re = re.compile(r"[^a-z0-9]+")] is the
    complement of [is_slug_char]. *)
Definition is_slug_char (c : ascii) : bool := Text.is_lower c || Text.is_digit c.

Definition dot : ascii := "."%char.
Definition is_dot (c : ascii) : bool := Ascii.eqb c dot.

(** [_slug_re.sub(".", s)]: scanning from the left, every maximal run of
    characters outside [a-z0-9] is replaced by one ".". [in_run] tells that
    the previous character already belonged to the run being replaced. *)
Fixpoint slug_re_sub_go (in_run : bool) (s : string) : string :=
  match s with
  | EmptyString => EmptyString
  | String c r =>
      if is_slug_char c then String c (slug_re_sub_go false r)
      else if in_run then slug_re_sub_go true r
      else String dot (slug_re_sub_go true r)
  end.

Definition slug_re_sub (s : string) : string := slug_re_sub_go false s.

(** [x or "user"] on strings. *)
Definition or_user (x : string) : string :=
  if Text.is_empty x then "user" else x.

(** [str.lower()] and [str.strip()] follow the Unicode tables: the case
    mappings (which may change the length of a text, and turn a character
    outside ASCII into an ASCII letter) and the white space beyond ASCII.
    They are taken as an interface. *)
Class StrLib := {
  str_lower : string -> string;
  str_strip : string -> string;
}.

(** What is used of them, where something is.  On ASCII text they are the
    ASCII operations; the case of the ASCII letters plays no part in
    either; a lowercased text has no letter A-Z; and what [strip] removes
    at both ends lowercases to text without ASCII letters or digits. *)
Class StrLaws `{SL : StrLib} : Prop := {
  str_lower_ascii :
    forall s, all_chars Text.is_ascii s = true -> str_lower s = Text.lower s;
  str_strip_ascii :
    forall s, all_chars Text.is_ascii s = true ->
              str_strip s = Text.strip Text.is_space s;
  str_lower_absorbs : forall s, str_lower (Text.lower s) = str_lower s;
  str_strip_lower : forall s, str_strip (Text.lower s) = Text.lower (str_strip s);
  str_lower_no_upper :
    forall s, all_chars (fun c => negb (Text.is_upper c)) (str_lower s) = true;
  str_lower_strip :
    forall s, exists pre post,
      str_lower s = pre +:+ str_lower (str_strip s) +:+ post
      /\ all_chars (fun c => negb (Text.is_alnum c)) pre = true
      /\ all_chars (fun c => negb (Text.is_alnum c)) post = true;
}.

Definition _slugify `{SL : StrLib} (s : string) : string :=
  let s := str_lower (str_strip s) in
  let s := Text.strip is_dot (slug_re_sub s) in
  or_user s.


(* ===================================================================== *)
(** ** Exceptions and results *)
(* ===================================================================== *)

(** The subclasses of [Exception] the code tells apart, each with the text
    [str(e)] gives. *)
Inductive Exception :=
| FileNotFoundError (msg : string)
| JSONDecodeError (msg : string)
| OtherError (msg : string).

Definition exc_str (e : Exception) : string :=
  match e with
  | FileNotFoundError m | JSONDecodeError m | OtherError m => m
  end.

Inductive Outcome (A : Type) :=
| Return (a : A)
| Raise (e : Exception).
Arguments Return {A} a.
Arguments Raise {A} e.

(** A path either holds a regular UTF-8 text file, or is an entry that
    cannot be opened (a directory, a file without permission, bytes that
    are not UTF-8, a parent that is not a directory): [open] then fails
    with an [OSError] or a [ValueError] whose text is [err]. *)
Inductive Node :=
| Regular (text : string)
| Faulty (err : string).

(** Result of a scanning function: a value with the rest of the input, a
    [JSONDecodeError] with its message, or the recursion budget used up. *)
Inductive PRes (A : Type) :=
| POk (a : A) (rest : list ascii)
| PErr (msg : string)
| PFuel.
Arguments POk {A} a rest.
Arguments PErr {A} msg.
Arguments PFuel {A}.

(* ===================================================================== *)
(** ** Python values *)
(* ===================================================================== *)

(** Floating-point numbers are not computed with: the type of floats and
    the two conversions the [json] module needs are an interface. *)
Class FloatLib := {
  pyfloat : Type;
  (** [float(lexeme)], for a JSON number with a fraction or an exponent and
      for the constants [NaN], [Infinity] and [-Infinity] *)
  float_of_literal : string -> pyfloat;
  (** the text [json.dumps] writes for a float *)
  float_json : pyfloat -> string;
}.

Section Server.

Context `{FL : FloatLib} `{SL : StrLib}.

(** Dictionary keys: the code uses string keys; [json.dumps] also accepts
    integer keys and writes them as strings. *)
Inductive PyKey :=
| KStr (s : string)
| KInt (n : Z).

(** The values that travel through the tools: JSON-like data.  A [dict]
    keeps its insertion order, so it is an association list. *)
#[warnings="-register-all"]
Inductive PyVal :=
| VNone
| VBool (b : bool)
| VInt (n : Z)
| VFloat (x : pyfloat)
| VStr (s : string)
| VList (items : list PyVal)
| VDict (entries : list (PyKey * PyVal)).

Definition key_eqb (a b : PyKey) : bool :=
  match a, b with
  | KStr x, KStr y => String.eqb x y
  | KInt x, KInt y => Z.eqb x y
  | _, _ => false
  end.

(** [d.get(k)] *)
Fixpoint dict_get (d : list (PyKey * PyVal)) (k : PyKey) : option PyVal :=
  match d with
  | [] => None
  | (k', v) :: r => if key_eqb k' k then Some v else dict_get r k
  end.

(** [k in d] *)
Definition dict_has (d : list (PyKey * PyVal)) (k : PyKey) : bool :=
  match dict_get d k with Some _ => true | None => false end.

(** [d[k] = v]: an existing key keeps its place and takes the new value, a
    new key goes last. *)
Fixpoint dict_set (d : list (PyKey * PyVal)) (k : PyKey) (v : PyVal)
  : list (PyKey * PyVal) :=
  match d with
  | [] => [(k, v)]
  | (k', v') :: r =>
      if key_eqb k' k then (k', v) :: r else (k', v') :: dict_set r k v
  end.

(** [dict(pairs)] *)
Definition dict_of_pairs (pairs : list (PyKey * PyVal)) : list (PyKey * PyVal) :=
  fold_left (fun d kv => dict_set d (fst kv) (snd kv)) pairs [].

(** The parts of the Python runtime the module relies on and that are
    taken as given: [repr] of a container, [json.dumps] with its default
    options (used for a non-text reply of the model),
    [datetime.isoformat], the datetime being counted in microseconds, and
    the place where [json.loads] gives up on a document it refuses, in
    the form "line L column C (char P)" that the text of a
    [JSONDecodeError] ends with. *)
Class PyRuntime := {
  py_repr : PyVal -> string;
  json_dumps_default : PyVal -> string;
  isoformat : Z -> string;
  error_position : string -> string;
}.

Context `{RT : PyRuntime}.

(** [str(v)] *)
Definition py_str (v : PyVal) : string :=
  match v with
  | VStr s => s
  | VInt n => Text.str_of_Z n
  | VNone => "None"
  | VBool true => "True"
  | VBool false => "False"
  | _ => py_repr v
  end.

(* ===================================================================== *)
(** ** The world and the effect monad *)
(* ===================================================================== *)

(** What the tools can observe and change: the files by path (an absent
    path does not exist), the numbers [random] will draw, and the readings
    of the clock (microseconds). *)
Record World := {
  files : gmap string Node;
  randoms : list N;
  clock : list Z;
}.

Definition ST (S A : Type) : Type := S -> Outcome A * S.

Definition ret {S A} (a : A) : ST S A := fun s => (Return a, s).
Definition raise {S A} (e : Exception) : ST S A := fun s => (Raise e, s).
Definition bind {S A B} (c : ST S A) (k : A -> ST S B) : ST S B :=
  fun s =>
    match c s with
    | (Return a, s') => k a s'
    | (Raise e, s') => (Raise e, s')
    end.

(** [try: c  except Exception as e: h e]; what [c] did to the state before
    it raised stays done. *)
Definition try_except {S A} (c : ST S A) (h : Exception -> ST S A) : ST S A :=
  fun s =>
    match c s with
    | (Return a, s') => (Return a, s')
    | (Raise e, s') => h e s'
    end.

Notation "x <- c ;; k" := (bind c (fun x => k))
  (at level 100, c at next level, right associativity).
Notation "c ;;; k" := (bind c (fun _ => k))
  (at level 100, k at level 100, right associativity).

Definition M := ST World.

(** [Path(p).read_text(encoding="utf-8")] *)
Definition read_text (p : string) : M string :=
  fun w =>
    match files w !! p with
    | None =>
        (Raise (FileNotFoundError
                  ("[Errno 2] No such file or directory: '" +:+ p +:+ "'")), w)
    | Some (Regular t) => (Return t, w)
    | Some (Faulty e) => (Raise (OtherError e), w)
    end.

(** [Path(p).parent.mkdir(parents=True, exist_ok=True)]: directories are
    not tracked; the call fails where the entry itself is unusable. *)
Definition mkdir_parent (p : string) : M unit :=
  fun w =>
    match files w !! p with
    | Some (Faulty e) => (Raise (OtherError e), w)
    | _ => (Return tt, w)
    end.

(** [Path(p).write_text(text, encoding="utf-8")], for a text UTF-8 can
    encode: the file at [p] holds [text] afterwards.  Paths are told apart
    as texts, so two spellings of one file are two entries. *)
Definition write_text (p text : string) : M unit :=
  fun w =>
    match files w !! p with
    | Some (Faulty e) => (Raise (OtherError e), w)
    | _ => (Return tt,
            {| files := <[p := Regular text]> (files w);
               randoms := randoms w; clock := clock w |})
    end.

(** [random.randint(a, b)]: an empty range raises; otherwise the next draw
    picks a point of [[a, b]]. *)
Definition randint (a b : Z) : M Z :=
  fun w =>
    if b <? a then
      (Raise (OtherError "empty range for randrange()"), w)
    else
      let r := match randoms w with [] => 0%N | r :: _ => r end in
      (Return (a + Z.of_N r mod (b - a + 1)),
       {| files := files w; randoms := tl (randoms w); clock := clock w |}).

(** [_tznow()]: the next reading of the clock.  Both branches of its
    [try] read the same clock, so the fallback does not show here. *)
Definition _tznow : M Z :=
  fun w =>
    let t := match clock w with [] => 0 | t :: _ => t end in
    (Return t,
     {| files := files w; randoms := randoms w; clock := tl (clock w) |}).

Definition microseconds_per_day : Z := 86400000000.
(* ===================================================================== *)
(** ** The [json] module: [dumps(v, indent=2, ensure_ascii=False)] *)
(* ===================================================================== *)

Definition lit (s : string) : list ascii := list_ascii_of_string s.

Definition is_char (n : N) (c : ascii) : bool := (Text.code c =? n)%N.

Definition dquote : ascii := ascii_of_N 34.
Definition backslash : ascii := ascii_of_N 92.
Definition newline : ascii := ascii_of_N 10.
Definition space : ascii := ascii_of_N 32.

(** ["0123456789abcdef"[n]] *)
Definition hex_digit (n : N) : ascii :=
  if (n <? 10)%N then ascii_of_N (48 + n) else ascii_of_N (87 + n).

(** The replacement [ESCAPE_DCT] gives for one character: the quote, the
    backslash and the control characters are escaped, everything else is
    kept ([ensure_ascii=False]). *)
Definition escape_char (c : ascii) : list ascii :=
  let n := Text.code c in
  if (n =? 34)%N then [backslash; dquote]
  else if (n =? 92)%N then [backslash; backslash]
  else if (n =? 10)%N then backslash :: lit "n"
  else if (n =? 13)%N then backslash :: lit "r"
  else if (n =? 9)%N then backslash :: lit "t"
  else if (n =? 8)%N then backslash :: lit "b"
  else if (n =? 12)%N then backslash :: lit "f"
  else if (n <? 32)%N then
    backslash :: lit "u00" ++ [hex_digit (n / 16); hex_digit (n mod 16)]
  else [c].

(** [encode_basestring] *)
Definition encode_string (s : string) : list ascii :=
  dquote :: flat_map escape_char (lit s) ++ [dquote].

(** A key is written as a string; an integer key by its decimal text. *)
Definition key_text (k : PyKey) : string :=
  match k with
  | KStr s => s
  | KInt n => Text.str_of_Z n
  end.

Fixpoint join_chars (sep : list ascii) (parts : list (list ascii)) : list ascii :=
  match parts with
  | [] => []
  | [x] => x
  | x :: r => x ++ sep ++ join_chars sep r
  end.

(** ['\n' + ' ' * (2 * level)] *)
Definition newline_indent (level : nat) : list ascii :=
  newline :: repeat space (2 * level).

(** The encoder at nesting depth [level]. *)
Fixpoint dumps_at (level : nat) (v : PyVal) : list ascii :=
  match v with
  | VNone => lit "null"
  | VBool true => lit "true"
  | VBool false => lit "false"
  | VInt n => lit (Text.str_of_Z n)
  | VFloat x => lit (float_json x)
  | VStr s => encode_string s
  | VList [] => lit "[]"
  | VList items =>
      lit "[" ++ newline_indent (S level)
        ++ join_chars (lit "," ++ newline_indent (S level))
             (List.map (dumps_at (S level)) items)
        ++ newline_indent level ++ lit "]"
  | VDict [] => lit "{}"
  | VDict entries =>
      lit "{" ++ newline_indent (S level)
        ++ join_chars (lit "," ++ newline_indent (S level))
             (List.map (fun kv : PyKey * PyVal =>
                          encode_string (key_text (fst kv)) ++ lit ": "
                            ++ dumps_at (S level) (snd kv)) entries)
        ++ newline_indent level ++ lit "}"
  end.

Definition json_dumps (v : PyVal) : string :=
  string_of_list_ascii (dumps_at 0 v).

(* ===================================================================== *)
(** ** The [json] module: [loads] *)
(* ===================================================================== *)

(** The white space of JSON: space, TAB, LF, CR. *)
Definition is_json_ws (c : ascii) : bool :=
  is_char 32 c || is_char 9 c || is_char 10 c || is_char 13 c.

Fixpoint skip_ws (s : list ascii) : list ascii :=
  match s with
  | c :: r => if is_json_ws c then skip_ws r else s
  | [] => []
  end.

Definition hex_value (c : ascii) : option N :=
  let n := Text.code c in
  if Text.is_digit c then Some (n - 48)%N
  else if Text.in_range 97 102 c then Some (n - 87)%N
  else if Text.in_range 65 70 c then Some (n - 55)%N
  else None.

Definition hex4 (a b c d : ascii) : option N :=
  match hex_value a, hex_value b, hex_value c, hex_value d with
  | Some x, Some y, Some z, Some t => Some (((x * 16 + y) * 16 + z) * 16 + t)%N
  | _, _, _, _ => None
  end.

(** [chr(cp)], in UTF-8. *)
Definition chr (cp : N) : list ascii :=
  if (cp <? 128)%N then [ascii_of_N cp]
  else if (cp <? 2048)%N then
    [ascii_of_N (192 + cp / 64); ascii_of_N (128 + cp mod 64)]
  else if (cp <? 65536)%N then
    [ascii_of_N (224 + cp / 4096); ascii_of_N (128 + (cp / 64) mod 64);
     ascii_of_N (128 + cp mod 64)]
  else
    [ascii_of_N (240 + cp / 262144); ascii_of_N (128 + (cp / 4096) mod 64);
     ascii_of_N (128 + (cp / 64) mod 64); ascii_of_N (128 + cp mod 64)].

(** The [BACKSLASH] table of one-letter escapes. *)
Definition simple_escape (e : ascii) : option ascii :=
  let n := Text.code e in
  if (n =? 34)%N then Some dquote
  else if (n =? 92)%N then Some backslash
  else if (n =? 47)%N then Some (ascii_of_N 47)
  else if (n =? 98)%N then Some (ascii_of_N 8)
  else if (n =? 102)%N then Some (ascii_of_N 12)
  else if (n =? 110)%N then Some (ascii_of_N 10)
  else if (n =? 114)%N then Some (ascii_of_N 13)
  else if (n =? 116)%N then Some (ascii_of_N 9)
  else None.

Definition prepend {A} (pre : list A) (r : PRes (list A)) : PRes (list A) :=
  match r with
  | POk cs rest => POk (pre ++ cs) rest
  | PErr m => PErr m
  | PFuel => PFuel
  end.

Definition is_high_surrogate (u : N) : bool := ((55296 <=? u) && (u <=? 56319))%N.
Definition is_low_surrogate (u : N) : bool := ((56320 <=? u) && (u <=? 57343))%N.

(** [scanstring], started after the opening quote (strict mode). *)
Fixpoint scan_string (s : list ascii) : PRes (list ascii) :=
  match s with
  | [] => PErr "Unterminated string starting at"
  | c :: r =>
      if is_char 34 c then POk [] r
      else if is_char 92 c then
        match r with
        | [] => PErr "Unterminated string starting at"
        | e :: r1 =>
            if is_char 117 e then
              match r1 with
              | h1 :: h2 :: h3 :: h4 :: r2 =>
                  match hex4 h1 h2 h3 h4 with
                  | None => PErr "Invalid \uXXXX escape"
                  | Some uni =>
                      if is_high_surrogate uni then
                        match r2 with
                        | b :: u :: g1 :: g2 :: g3 :: g4 :: r3 =>
                            if is_char 92 b && is_char 117 u then
                              match hex4 g1 g2 g3 g4 with
                              | None => PErr "Invalid \uXXXX escape"
                              | Some uni2 =>
                                  if is_low_surrogate uni2 then
                                    prepend
                                      (chr (65536 + (uni - 55296) * 1024
                                              + (uni2 - 56320))%N)
                                      (scan_string r3)
                                  else prepend (chr uni) (scan_string r2)
                              end
                            else prepend (chr uni) (scan_string r2)
                        | _ => prepend (chr uni) (scan_string r2)
                        end
                      else prepend (chr uni) (scan_string r2)
                  end
              | _ => PErr "Invalid \uXXXX escape"
              end
            else
              match simple_escape e with
              | Some x => prepend [x] (scan_string r1)
              | None => PErr "Invalid \escape"
              end
        end
      else if (Text.code c <? 32)%N then PErr "Invalid control character at"
      else prepend [c] (scan_string r)
  end.

Fixpoint span_digits (s : list ascii) : list ascii * list ascii :=
  match s with
  | c :: r =>
      if Text.is_digit c then
        let (ds, rest) := span_digits r in (c :: ds, rest)
      else ([], s)
  | [] => ([], [])
  end.

(** [int(lexeme)] *)
Definition int_of_lexeme (lexeme : list ascii) : Z :=
  match NilZero.int_of_string (string_of_list_ascii lexeme) with
  | Some d => Z.of_int d
  | None => 0
  end.

(** The integer part of [NUMBER_RE]: an optional minus sign, then either a
    single 0 or a non-zero digit followed by digits. *)
Definition scan_int_part (s : list ascii) : option (list ascii * list ascii) :=
  let (sign, s1) :=
    match s with
    | c :: r => if is_char 45 c then ([c], r) else ([], s)
    | [] => ([], s)
    end in
  match s1 with
  | d :: r =>
      if is_char 48 d then Some (sign ++ [d], r)
      else if Text.is_digit d then
        let (ds, rest) := span_digits r in Some (sign ++ d :: ds, rest)
      else None
  | [] => None
  end.

(** The optional fraction: a point followed by at least one digit. *)
Definition scan_frac (s : list ascii) : list ascii * list ascii :=
  match s with
  | c :: r =>
      if is_char 46 c then
        match span_digits r with
        | ([], _) => ([], s)
        | (ds, rest) => (c :: ds, rest)
        end
      else ([], s)
  | [] => ([], s)
  end.

(** The optional exponent: e or E, an optional sign, at least one digit. *)
Definition scan_exp (s : list ascii) : list ascii * list ascii :=
  match s with
  | c :: r =>
      if is_char 101 c || is_char 69 c then
        let (sign, r1) :=
          match r with
          | g :: r' => if is_char 43 g || is_char 45 g then ([g], r') else ([], r)
          | [] => ([], r)
          end in
        match span_digits r1 with
        | ([], _) => ([], s)
        | (ds, rest) => (c :: sign ++ ds, rest)
        end
      else ([], s)
  | [] => ([], s)
  end.

(** [match_number]: an integer when there is neither a fraction nor an
    exponent, a float otherwise. *)
Definition scan_number (s : list ascii) : option (PyVal * list ascii) :=
  match scan_int_part s with
  | None => None
  | Some (int_part, r1) =>
      let (frac, r2) := scan_frac r1 in
      let (exp, r3) := scan_exp r2 in
      match frac, exp with
      | [], [] => Some (VInt (int_of_lexeme int_part), r3)
      | _, _ =>
          Some (VFloat (float_of_literal
                          (string_of_list_ascii (int_part ++ frac ++ exp))), r3)
      end
  end.

Fixpoint strip_prefix (p s : list ascii) : option (list ascii) :=
  match p, s with
  | [], _ => Some s
  | a :: p', b :: s' => if Ascii.eqb a b then strip_prefix p' s' else None
  | _ :: _, [] => None
  end.

(** The cases of [scan_once] that have no nested value. *)
Definition scan_atom (s : list ascii) : PRes PyVal :=
  match strip_prefix (lit "null") s with
  | Some r => POk VNone r
  | None =>
  match strip_prefix (lit "true") s with
  | Some r => POk (VBool true) r
  | None =>
  match strip_prefix (lit "false") s with
  | Some r => POk (VBool false) r
  | None =>
  match scan_number s with
  | Some (v, r) => POk v r
  | None =>
  match strip_prefix (lit "NaN") s with
  | Some r => POk (VFloat (float_of_literal "NaN")) r
  | None =>
  match strip_prefix (lit "Infinity") s with
  | Some r => POk (VFloat (float_of_literal "Infinity")) r
  | None =>
  match strip_prefix (lit "-Infinity") s with
  | Some r => POk (VFloat (float_of_literal "-Infinity")) r
  | None => PErr "Expecting value"
  end end end end end end end.

(** [scan_once], [JSONArray] and [JSONObject].  [parse_elems] starts at an
    element of an array; [parse_members] starts after the opening quote of
    a key.  [acc] holds what was read so far, last first.  [fuel] bounds
    the number of nested calls. *)
Fixpoint parse_value (fuel : nat) (s : list ascii) {struct fuel} : PRes PyVal :=
  match fuel with
  | O => PFuel
  | S fuel' =>
      match s with
      | [] => PErr "Expecting value"
      | c :: r =>
          if is_char 34 c then
            match scan_string r with
            | POk cs rest => POk (VStr (string_of_list_ascii cs)) rest
            | PErr m => PErr m
            | PFuel => PFuel
            end
          else if is_char 123 c then
            match skip_ws r with
            | c1 :: r1 =>
                if is_char 125 c1 then POk (VDict []) r1
                else if is_char 34 c1 then parse_members fuel' r1 []
                else PErr "Expecting property name enclosed in double quotes"
            | [] => PErr "Expecting property name enclosed in double quotes"
            end
          else if is_char 91 c then
            match skip_ws r with
            | c1 :: r1 =>
                if is_char 93 c1 then POk (VList []) r1
                else parse_elems fuel' (c1 :: r1) []
            | [] => PErr "Expecting value"
            end
          else scan_atom s
      end
  end

with parse_elems (fuel : nat) (s : list ascii) (acc : list PyVal) {struct fuel}
  : PRes PyVal :=
  match fuel with
  | O => PFuel
  | S fuel' =>
      match parse_value fuel' s with
      | POk v r =>
          match skip_ws r with
          | c :: r1 =>
              if is_char 93 c then POk (VList (rev (v :: acc))) r1
              else if is_char 44 c then parse_elems fuel' (skip_ws r1) (v :: acc)
              else PErr "Expecting ',' delimiter"
          | [] => PErr "Expecting ',' delimiter"
          end
      | PErr m => PErr m
      | PFuel => PFuel
      end
  end

with parse_members (fuel : nat) (s : list ascii) (acc : list (PyKey * PyVal))
  {struct fuel} : PRes PyVal :=
  match fuel with
  | O => PFuel
  | S fuel' =>
      match scan_string s with
      | POk k r =>
          match skip_ws r with
          | c :: r1 =>
              if is_char 58 c then
                match parse_value fuel' (skip_ws r1) with
                | POk v r2 =>
                    let acc' := (KStr (string_of_list_ascii k), v) :: acc in
                    match skip_ws r2 with
                    | c2 :: r3 =>
                        if is_char 125 c2 then
                          POk (VDict (dict_of_pairs (rev acc'))) r3
                        else if is_char 44 c2 then
                          match skip_ws r3 with
                          | c3 :: r4 =>
                              if is_char 34 c3 then parse_members fuel' r4 acc'
                              else PErr "Expecting property name enclosed in double quotes"
                          | [] => PErr "Expecting property name enclosed in double quotes"
                          end
                        else PErr "Expecting ',' delimiter"
                    | [] => PErr "Expecting ',' delimiter"
                    end
                | PErr m => PErr m
                | PFuel => PFuel
                end
              else PErr "Expecting ':' delimiter"
          | [] => PErr "Expecting ':' delimiter"
          end
      | PErr m => PErr m
      | PFuel => PFuel
      end
  end.

(** The text of a [JSONDecodeError]: the message, then the position. *)
Definition decode_error (doc msg : string) : Exception :=
  JSONDecodeError (msg +:+ ": " +:+ error_position doc).

(** [json.loads(doc)]: a leading byte-order mark is refused, white space
    around the value is skipped, and nothing may follow it.  The budget is
    more than any text needs (see [parse_consumes] and [json_loads_total]). *)
Definition json_loads (doc : string) : Outcome PyVal :=
  let s := lit doc in
  match strip_prefix [ascii_of_N 239; ascii_of_N 187; ascii_of_N 191] s with
  | Some _ =>
      Raise (JSONDecodeError
               "Unexpected UTF-8 BOM (decode using utf-8-sig): line 1 column 1 (char 0)")
  | None =>
      match parse_value (2 * length s + 2) (skip_ws s) with
      | POk v r =>
          match skip_ws r with
          | [] => Return v
          | _ :: _ => Raise (decode_error doc "Extra data")
          end
      | PErr m => Raise (decode_error doc m)
      | PFuel => Raise (OtherError "maximum recursion depth exceeded")
      end
  end.

(** The nesting depth of a value: one more than that of its deepest item
    for a list or a dict, 0 for anything else. *)
Fixpoint json_depth (v : PyVal) : nat :=
  match v with
  | VList items => S (list_max (List.map json_depth items))
  | VDict entries =>
      S (list_max (List.map (fun kv : PyKey * PyVal => json_depth (snd kv)) entries))
  | _ => O
  end.

(** The recursion limit of the interpreter.  The encoder behind
    [json.dumps(..., indent=2)] and the decoder behind [json.loads] nest
    one call per level of the data; whether they reach the limit depends
    on its setting and on the depth of the call stack when a tool runs.
    This is an interface: [encoder_fits v] tells that [json.dumps] encodes
    [v] without reaching the limit, [decoder_fits text] that [json.loads]
    runs on [text] without reaching it; otherwise the call raises a
    [RecursionError], whose text is given.  Data nested three levels at
    most, such as the object [generate_sample_user] builds, never reaches
    the limit. *)
Class Interpreter := {
  encoder_fits : PyVal -> bool;
  decoder_fits : string -> bool;
  encoder_error : PyVal -> string;
  decoder_error : string -> string;
  shallow_encodes : forall v, (json_depth v <= 3)%nat -> encoder_fits v = true;
  shallow_decodes :
    forall v, (json_depth v <= 3)%nat -> decoder_fits (json_dumps v) = true;
}.

Context `{IP : Interpreter}.

(** The calls [json.dumps(v, indent=2, ensure_ascii=False)] and
    [json.loads(text)]. *)
Definition dumps (v : PyVal) : Outcome string :=
  if encoder_fits v then Return (json_dumps v)
  else Raise (OtherError (encoder_error v)).

Definition loads (text : string) : Outcome PyVal :=
  if decoder_fits text then json_loads text
  else Raise (OtherError (decoder_error text)).

(* ===================================================================== *)
(** ** The tools *)
(* ===================================================================== *)

Definition lift {S A} (o : Outcome A) : ST S A := fun s => (o, s).

Definition write_json (filepath : string) (data : PyVal) : M PyVal :=
  try_except
    (text <- lift (dumps data) ;;
     mkdir_parent filepath ;;;
     write_text filepath text ;;;
     ret (VStr ("Successfully wrote JSON to '" +:+ filepath +:+ "' ("
                  +:+ Text.str_of_Z (Z.of_nat (Text.py_len text))
                  +:+ " characters).")))
    (fun e => ret (VStr ("Error writing JSON: " +:+ exc_str e))).

Definition read_json (filepath : string) : M PyVal :=
  try_except
    (text <- read_text filepath ;;
     data <- lift (loads text) ;;
     out <- lift (dumps data) ;;
     ret (VStr out))
    (fun e =>
       match e with
       | FileNotFoundError _ =>
           ret (VStr ("Error: File '" +:+ filepath +:+ "' not found."))
       | JSONDecodeError m =>
           ret (VStr ("Error: Invalid JSON in file - " +:+ m))
       | OtherError m =>
           ret (VStr ("Error reading JSON: " +:+ m))
       end).

(** [i % n] on non-negative integers *)
Definition py_mod (i n : nat) : M nat :=
  if Nat.eqb n 0 then raise (OtherError "integer modulo by zero")
  else ret (Nat.modulo i n).

(** [l[i]] *)
Definition list_item {A} (l : list A) (i : nat) : M A :=
  match nth_error l i with
  | Some x => ret x
  | None => raise (OtherError "list index out of range")
  end.

Definition error_dict (msg : string) : PyVal := VDict [(KStr "error", VStr msg)].

(** One turn of the [for] loop of [generate_sample_user]: the record built
    for the [i]-th first name (counted from 0). *)
Definition make_user (i : nat) (first : string) (last_names domains : list string)
  (min_age max_age : Z) : M PyVal :=
  li <- py_mod i (length last_names) ;;
  last <- list_item last_names li ;;
  di <- py_mod i (length domains) ;;
  domain <- list_item domains di ;;
  let first_slug := _slugify first in
  let last_slug := _slugify last in
  let email := first_slug +:+ "." +:+ last_slug +:+ "@"
                 +:+ str_lower (str_strip domain) in
  suffix <- randint 100 999 ;;
  age <- randint min_age max_age ;;
  now <- _tznow ;;
  days <- randint 1 365 ;;
  ret (VDict [(KStr "id", VInt (Z.of_nat i + 1));
              (KStr "firstName", VStr first);
              (KStr "lastName", VStr last);
              (KStr "email", VStr email);
              (KStr "username", VStr (first_slug +:+ Text.str_of_Z suffix));
              (KStr "age", VInt age);
              (KStr "registeredAt",
               VStr (isoformat (now - days * microseconds_per_day)))]).

(** [for i, first in enumerate(first_names): users.append(...)], from
    index [i] on. *)
Fixpoint gen_users (i : nat) (first_names last_names domains : list string)
  (min_age max_age : Z) (users : list PyVal) : M (list PyVal) :=
  match first_names with
  | [] => ret users
  | first :: rest =>
      u <- make_user i first last_names domains min_age max_age ;;
      gen_users (S i) rest last_names domains min_age max_age (users ++ [u])
  end.

Definition is_nil {A} (l : list A) : bool :=
  match l with [] => true | _ => false end.

Definition generate_sample_user (first_names last_names domains : list string)
  (min_age max_age : Z) : M PyVal :=
  if is_nil first_names then
    ret (error_dict "first_names list cannot be empty")
  else if is_nil last_names then
    ret (error_dict "last_names list cannot be empty")
  else if is_nil domains then
    ret (error_dict "domains list cannot be empty")
  else if min_age >? max_age then
    ret (error_dict ("min_age (" +:+ Text.str_of_Z min_age
                       +:+ ") cannot be greater than max_age ("
                       +:+ Text.str_of_Z max_age +:+ ")"))
  else if (min_age <? 0) || (max_age <? 0) then
    ret (error_dict "ages must be non-negative")
  else
    users <- gen_users 0 first_names last_names domains min_age max_age [] ;;
    ret (VDict [(KStr "users", VList users);
                (KStr "count", VInt (Z.of_nat (length users)))]).

(** [d[k]] *)
Definition dict_item (d : list (PyKey * PyVal)) (k : string) : M PyVal :=
  match dict_get d (KStr k) with
  | Some v => ret v
  | None => raise (OtherError k)
  end.

(** [names] when it is given and not empty, the default otherwise
    ([if not names: names = default]). *)
Definition or_default (names : option (list string)) (default : list string)
  : list string :=
  match names with
  | None | Some [] => default
  | Some l => l
  end.

Definition save_users (filepath : string)
  (first_names last_names domains : option (list string))
  (min_age max_age : Z) : M PyVal :=
  try_except
    (let first_names := or_default first_names ["John"; "Jane"; "Mike"] in
     let last_names := or_default last_names ["Smith"; "Jones"; "Brown"] in
     let domains := or_default domains ["example.com"] in
     data <- generate_sample_user first_names last_names domains min_age max_age ;;
     match data with
     | VDict d =>
         if dict_has d (KStr "error") then
           e <- dict_item d "error" ;;
           ret (VStr ("Error generating users: " +:+ py_str e))
         else
           text <- lift (dumps data) ;;
           mkdir_parent filepath ;;;
           write_text filepath text ;;;
           c <- dict_item d "count" ;;
           ret (VStr ("Saved " +:+ py_str c +:+ " users to '" +:+ filepath +:+ "'."))
     | _ => raise (OtherError "argument is not iterable")
     end)
    (fun e => ret (VStr ("Error saving users: " +:+ exc_str e))).

(* ===================================================================== *)
(** ** The tool registry *)
(* ===================================================================== *)

(** What [@tool] makes of a function: a name and [invoke], which checks
    the argument mapping against the signature before it calls the
    function.  The check is modelled strictly: a required argument must be
    present, every argument must have the JSON type of its annotation,
    arguments the signature does not name are ignored; a failed check
    raises a validation error. *)
Record Tool := {
  name : string;
  invoke : list (PyKey * PyVal) -> M PyVal;
}.

Definition invalid {A} (tool field : string) : M A :=
  raise (OtherError ("1 validation error for " +:+ tool +:+ ": " +:+ field)).

Fixpoint str_items (l : list PyVal) : option (list string) :=
  match l with
  | [] => Some []
  | VStr s :: r =>
      match str_items r with Some ss => Some (s :: ss) | None => None end
  | _ :: _ => None
  end.

Definition arg_str (tool : string) (args : list (PyKey * PyVal)) (k : string)
  : M string :=
  match dict_get args (KStr k) with
  | Some (VStr s) => ret s
  | _ => invalid tool k
  end.

Definition arg_dict (tool : string) (args : list (PyKey * PyVal)) (k : string)
  : M PyVal :=
  match dict_get args (KStr k) with
  | Some (VDict d) => ret (VDict d)
  | _ => invalid tool k
  end.

Definition arg_int (tool : string) (args : list (PyKey * PyVal)) (k : string)
  (default : option Z) : M Z :=
  match dict_get args (KStr k), default with
  | Some (VInt n), _ => ret n
  | None, Some n => ret n
  | _, _ => invalid tool k
  end.

Definition arg_str_list (tool : string) (args : list (PyKey * PyVal)) (k : string)
  : M (list string) :=
  match dict_get args (KStr k) with
  | Some (VList l) =>
      match str_items l with Some ss => ret ss | None => invalid tool k end
  | _ => invalid tool k
  end.

Definition arg_opt_str_list (tool : string) (args : list (PyKey * PyVal))
  (k : string) : M (option (list string)) :=
  match dict_get args (KStr k) with
  | None | Some VNone => ret None
  | Some (VList l) =>
      match str_items l with Some ss => ret (Some ss) | None => invalid tool k end
  | Some _ => invalid tool k
  end.

Definition write_json_tool : Tool :=
  {| name := "write_json";
     invoke := fun args =>
       filepath <- arg_str "write_json" args "filepath" ;;
       data <- arg_dict "write_json" args "data" ;;
       write_json filepath data |}.

Definition read_json_tool : Tool :=
  {| name := "read_json";
     invoke := fun args =>
       filepath <- arg_str "read_json" args "filepath" ;;
       read_json filepath |}.

Definition generate_sample_user_tool : Tool :=
  {| name := "generate_sample_user";
     invoke := fun args =>
       first_names <- arg_str_list "generate_sample_user" args "first_names" ;;
       last_names <- arg_str_list "generate_sample_user" args "last_names" ;;
       domains <- arg_str_list "generate_sample_user" args "domains" ;;
       min_age <- arg_int "generate_sample_user" args "min_age" None ;;
       max_age <- arg_int "generate_sample_user" args "max_age" None ;;
       generate_sample_user first_names last_names domains min_age max_age |}.

Definition save_users_tool : Tool :=
  {| name := "save_users";
     invoke := fun args =>
       filepath <- arg_str "save_users" args "filepath" ;;
       first_names <- arg_opt_str_list "save_users" args "first_names" ;;
       last_names <- arg_opt_str_list "save_users" args "last_names" ;;
       domains <- arg_opt_str_list "save_users" args "domains" ;;
       min_age <- arg_int "save_users" args "min_age" (Some 18) ;;
       max_age <- arg_int "save_users" args "max_age" (Some 65) ;;
       save_users filepath first_names last_names domains min_age max_age |}.

Definition TOOLS : list Tool :=
  [write_json_tool; read_json_tool; generate_sample_user_tool; save_users_tool].

(** [{t.name: t for t in TOOLS}] *)
Definition TOOLS_BY_NAME : gmap string Tool :=
  fold_left (fun m t => <[name t := t]> m) TOOLS ∅.

Definition SYSTEM_MESSAGE : string :=
  "You are DataGen, a helpful assistant that generates sample data for applications. "
  +:+ "To generate users, you need: first_names (list), last_names (list), domains (list), min_age, max_age. "
  +:+ "Fill these values yourself without asking if the user leaves them out. "
  +:+ "When asked to save users, prefer the save_users tool. If no filepath is provided, default to 'users.json'. "
  +:+ "If the user refers to 'those users' from a previous request, ask them to specify details again.".

(* ===================================================================== *)
(** ** Messages and the tool-calling loop *)
(* ===================================================================== *)

(** A tool call is a mapping read with [tc.get]: each entry may be absent. *)
Record ToolCall := {
  tc_name : option string;
  tc_args : option (list (PyKey * PyVal));
  tc_id : option string;
}.

(** The reply of the model: its content (a text, or a list of content
    blocks) and the tool calls it asks for, if the attribute is there. *)
Record AIMessage := {
  content : PyVal;
  tool_calls : option (list ToolCall);
}.

Inductive Message :=
| SystemMessage (text : string)
| HumanMessage (text : string)
| AIMsg (ai : AIMessage)
| ToolMessage (text : string) (tool_call_id : string).

Definition or_else {A} (o : option A) (default : A) : A :=
  match o with Some a => a | None => default end.

Section Loop.

(** The hosted model: a state of its own, and [llm_with_tools.invoke],
    which may raise. *)
Context {Provider : Type}.
Variable llm_with_tools : list Message -> ST Provider AIMessage.

Record Env := {
  world : World;
  provider : Provider;
}.

Definition in_world {A} (c : M A) : ST Env A :=
  fun s =>
    let (r, w) := c (world s) in (r, {| world := w; provider := provider s |}).

Definition in_provider {A} (c : ST Provider A) : ST Env A :=
  fun s =>
    let (r, p) := c (provider s) in (r, {| world := world s; provider := p |}).

(** The body of [for tc in tool_calls], with the message list made
    explicit: the list after the call has been handled. *)
Definition run_tool_call (tc : ToolCall) (messages : list Message)
  : ST Env (list Message) :=
  let name := or_else (tc_name tc) "" in
  let args := or_else (tc_args tc) [] in
  let call_id := or_else (tc_id tc) "" in
  match TOOLS_BY_NAME !! name with
  | None =>
      ret (messages
             ++ [ToolMessage ("Error: unknown tool '" +:+ name +:+ "'") call_id])
  | Some tool =>
      result <-
        try_except (in_world (invoke tool args))
          (fun e =>
             ret (VStr ("Error running tool '" +:+ name +:+ "': " +:+ exc_str e))) ;;
      ret (messages ++ [ToolMessage (py_str result) call_id])
  end.

Fixpoint run_tool_calls (tcs : list ToolCall) (messages : list Message)
  : ST Env (list Message) :=
  match tcs with
  | [] => ret messages
  | tc :: rest =>
      messages <- run_tool_call tc messages ;;
      run_tool_calls rest messages
  end.

(** The text returned for a reply without tool calls. *)
Definition reply_text (ai : AIMessage) : string :=
  match content ai with
  | VStr s => s
  | v => json_dumps_default v
  end.

Definition LOOP_LIMIT_MESSAGE : string := "Error: exceeded tool-calling loop limit.".

(** [for _ in range(rounds): ...] followed by the final [return]; the
    result is the reply together with the message list at that point. *)
Fixpoint chat_rounds (rounds : nat) (messages : list Message)
  : ST Env (string * list Message) :=
  match rounds with
  | O => ret (LOOP_LIMIT_MESSAGE, messages)
  | S rounds' =>
      ai <- in_provider (llm_with_tools messages) ;;
      let messages := messages ++ [AIMsg ai] in
      match or_else (tool_calls ai) [] with
      | [] => ret (reply_text ai, messages)
      | tcs =>
          messages <- run_tool_calls tcs messages ;;
          chat_rounds rounds' messages
      end
  end.

Definition initial_messages (input_text : string) (history_msgs : list Message)
  : list Message :=
  SystemMessage SYSTEM_MESSAGE :: history_msgs ++ [HumanMessage input_text].

(** [run_chat], returning the message list along with the reply. *)
Definition run_chat_trace (input_text : string) (history_msgs : list Message)
  : ST Env (string * list Message) :=
  chat_rounds 8 (initial_messages input_text history_msgs).

Definition run_chat (input_text : string) (history_msgs : list Message)
  : ST Env string :=
  r <- run_chat_trace input_text history_msgs ;;
  ret (fst r).

End Loop.

(* ===================================================================== *)
(** ** Notions used to state the properties *)
(* ===================================================================== *)

(** The tail of a joined list of non-empty words, as it appears after a
    first word: nothing, or a separator and the rest. *)
Definition after_sep (ws : list string) : string :=
  match ws with
  | [] => EmptyString
  | _ => String dot (Text.join "." ws)
  end.

Definition nonempty (w : string) : bool := negb (Text.is_empty w).

(** The shape of the [i]-th generated record (counted from 0), for the
    first name [first], the last name [last] and the domain [domain] it is
    paired with. *)
Definition user_record (i : nat) (first last domain : string) (min_age max_age : Z)
  (u : PyVal) : Prop :=
  exists (suffix age : Z) (stamp : string),
    u = VDict [(KStr "id", VInt (Z.of_nat i + 1));
               (KStr "firstName", VStr first);
               (KStr "lastName", VStr last);
               (KStr "email",
                VStr (_slugify first +:+ "." +:+ _slugify last +:+ "@"
                        +:+ str_lower (str_strip domain)));
               (KStr "username", VStr (_slugify first +:+ Text.str_of_Z suffix));
               (KStr "age", VInt age);
               (KStr "registeredAt", VStr stamp)]
    /\ 100 <= suffix <= 999
    /\ min_age <= age <= max_age.

(** The checks of [generate_sample_user], in the order the specification
    fixes. *)
Inductive Check :=
| EmptyFirstNames
| EmptyLastNames
| EmptyDomains
| MinAboveMax
| NegativeAge.

Definition validation_order : list Check :=
  [EmptyFirstNames; EmptyLastNames; EmptyDomains; MinAboveMax; NegativeAge].

Definition check_fails (first_names last_names domains : list string)
  (min_age max_age : Z) (c : Check) : bool :=
  match c with
  | EmptyFirstNames => is_nil first_names
  | EmptyLastNames => is_nil last_names
  | EmptyDomains => is_nil domains
  | MinAboveMax => min_age >? max_age
  | NegativeAge => (min_age <? 0) || (max_age <? 0)
  end.

(** The first check of [validation_order] that fails, if any. *)
Definition first_failing_check (first_names last_names domains : list string)
  (min_age max_age : Z) : option Check :=
  List.find (check_fails first_names last_names domains min_age max_age)
    validation_order.

Definition check_message (min_age max_age : Z) (c : Check) : string :=
  match c with
  | EmptyFirstNames => "first_names list cannot be empty"
  | EmptyLastNames => "last_names list cannot be empty"
  | EmptyDomains => "domains list cannot be empty"
  | MinAboveMax =>
      "min_age (" +:+ Text.str_of_Z min_age
        +:+ ") cannot be greater than max_age (" +:+ Text.str_of_Z max_age +:+ ")"
  | NegativeAge => "ages must be non-negative"
  end.

(** What each message names. *)
Definition check_subject (c : Check) : string :=
  match c with
  | EmptyFirstNames => "first_names"
  | EmptyLastNames => "last_names"
  | EmptyDomains => "domains"
  | MinAboveMax => "min_age"
  | NegativeAge => "ages"
  end.

(** A model whose invocations are counted: the provider state is paired
    with the number of calls made so far. *)
Definition counting {Provider : Type}
  (llm : list Message -> ST Provider AIMessage)
  : list Message -> ST (Provider * nat) AIMessage :=
  fun messages s =>
    let (r, p) := llm messages (fst s) in (r, (p, S (snd s))).

Definition invocations {Provider : Type} (s : @Env (Provider * nat)) : nat :=
  snd (provider s).

(** A model that answers every invocation with at least one tool call. *)
Definition always_calls_tools {Provider : Type}
  (llm : list Message -> ST Provider AIMessage) : Prop :=
  forall messages p, exists ai p',
    llm messages p = (Return ai, p') /\ or_else (tool_calls ai) [] <> [].

(** The error texts the tools and the dispatch produce. *)
Inductive tool_error_text : string -> Prop :=
| err_unknown_tool (name : string) :
    tool_error_text ("Error: unknown tool '" +:+ name +:+ "'")
| err_running_tool (name detail : string) :
    tool_error_text ("Error running tool '" +:+ name +:+ "': " +:+ detail)
| err_writing_json (detail : string) :
    tool_error_text ("Error writing JSON: " +:+ detail)
| err_file_not_found (filepath : string) :
    tool_error_text ("Error: File '" +:+ filepath +:+ "' not found.")
| err_invalid_json (detail : string) :
    tool_error_text ("Error: Invalid JSON in file - " +:+ detail)
| err_reading_json (detail : string) :
    tool_error_text ("Error reading JSON: " +:+ detail)
| err_generating_users (detail : string) :
    tool_error_text ("Error generating users: " +:+ detail)
| err_saving_users (detail : string) :
    tool_error_text ("Error saving users: " +:+ detail).

(** [m] is the tool message that answers the call [tc]. *)
Definition answers (tc : ToolCall) (m : Message) : Prop :=
  exists text, m = ToolMessage text (or_else (tc_id tc) "").

(** *** JSON data *)

(** The end of input, or the character that follows a value inside an
    indented array or object: a comma or a line feed. *)
Definition after_value (rest : list ascii) : bool :=
  match rest with
  | [] => true
  | c :: _ => is_char 44 c || is_char 10 c
  end.


(** The values [json.loads] gives back as they were written: [None],
    booleans, integers, floats other than NaN (which no float equals, and
    which alone is written as NaN), strings, lists, and dicts whose keys
    are distinct strings.  [native false] leaves the floats out. *)
Definition is_str_key (k : PyKey) : bool :=
  match k with KStr _ => true | KInt _ => false end.

Fixpoint distinct_keys (ks : list PyKey) : bool :=
  match ks with
  | [] => true
  | k :: r => negb (existsb (key_eqb k) r) && distinct_keys r
  end.

Fixpoint native (floats : bool) (v : PyVal) : bool :=
  match v with
  | VNone | VBool _ | VInt _ | VStr _ => true
  | VFloat x => floats && negb (String.eqb (float_json x) "NaN")
  | VList items => forallb (native floats) items
  | VDict entries =>
      forallb (fun kv : PyKey * PyVal =>
                 is_str_key (fst kv) && native floats (snd kv)) entries
      && distinct_keys (List.map fst entries)
  end.

Definition json_native (v : PyVal) : bool := native true v.

(** What the interpreter and the file system ask of a value beyond its
    structure: an integer of more than 4300 digits is not converted to
    text (the default of the limit the interpreter puts on it), and a
    string with a lone surrogate has no UTF-8 encoding, so [write_text]
    cannot write it. *)
Definition storable_key (k : PyKey) : bool :=
  match k with
  | KStr s => negb (Text.has_surrogate s)
  | KInt n => Z.abs n <? 10 ^ 4300
  end.

Fixpoint storable (v : PyVal) : bool :=
  match v with
  | VInt n => Z.abs n <? 10 ^ 4300
  | VStr s => negb (Text.has_surrogate s)
  | VList items => forallb storable items
  | VDict entries =>
      forallb (fun kv : PyKey * PyVal => storable_key (fst kv) && storable (snd kv))
        entries
  | _ => true
  end.

Section NestedInduction.

Variable P : PyVal -> Prop.
Hypothesis HNone : P VNone.
Hypothesis HBool : forall b, P (VBool b).
Hypothesis HInt : forall n, P (VInt n).
Hypothesis HFloat : forall x, P (VFloat x).
Hypothesis HStr : forall s, P (VStr s).
Hypothesis HList : forall items, Forall P items -> P (VList items).
Hypothesis HDict :
  forall entries, Forall (fun kv => P (snd kv)) entries -> P (VDict entries).

Fixpoint PyVal_nested_ind (v : PyVal) : P v :=
  match v with
  | VNone => HNone
  | VBool b => HBool b
  | VInt n => HInt n
  | VFloat x => HFloat x
  | VStr s => HStr s
  | VList items =>
      HList items
        ((fix go (l : list PyVal) : Forall P l :=
            match l with
            | [] => @List.Forall_nil _ P
            | x :: r => @List.Forall_cons _ P x r (PyVal_nested_ind x) (go r)
            end) items)
  | VDict entries =>
      HDict entries
        ((fix go (l : list (PyKey * PyVal)) : Forall (fun kv => P (snd kv)) l :=
            match l with
            | [] => @List.Forall_nil _ _
            | kv :: r =>
                @List.Forall_cons _ (fun kv => P (snd kv)) kv r
                  (PyVal_nested_ind (snd kv)) (go r)
            end) entries)
  end.

End NestedInduction.

(** The first character of an encoded value. *)
Definition starts_value (c : ascii) : bool :=
  negb (is_json_ws c) && negb (is_char 93 c) && negb (is_char 125 c).

(** What the decoder is expected to give back on the encoding of [v]
    followed by [rest], whenever its budget is not used up. *)
Definition reads_back (v : PyVal) : Prop :=
  forall level fuel rest,
    after_value rest = true ->
    parse_value fuel (dumps_at level v ++ rest) <> PFuel ->
    parse_value fuel (dumps_at level v ++ rest) = POk v rest.

(** One "key: value" member of an object, as [dumps_at] writes it. *)
Definition member_chars (level : nat) (kv : PyKey * PyVal) : list ascii :=
  encode_string (key_text (fst kv)) ++ lit ": " ++ dumps_at (S level) (snd kv).

Definition native_entry (floats : bool) (kv : PyKey * PyVal) : bool :=
  is_str_key (fst kv) && native floats (snd kv).

(** [res], obtained from the input [s], is not a budget failure and
    leaves less input than it was given. *)
Definition consumes {A} (res : PRes A) (s : list ascii) : Prop :=
  res <> PFuel /\ forall a r, res = POk a r -> (length r < length s)%nat.

(** *** The file tools *)

(** The path can be opened: it is free, or holds a regular file. *)
Definition writable (w : World) (filepath : string) : bool :=
  match files w !! filepath with
  | Some (Faulty _) => false
  | _ => true
  end.

(** [write_json(filepath, data)] followed by [read_json(filepath)], and
    the value the text so obtained parses to. *)
Definition read_back_after_write (filepath : string) (data : PyVal) (w : World)
  : Outcome PyVal :=
  let (_, w1) := write_json filepath data w in
  match read_json filepath w1 with
  | (Return (VStr text), _) => json_loads text
  | (Return _, _) => Raise (OtherError "read_json did not return a string")
  | (Raise e, _) => Raise e
  end.

(** Every registered tool returns a string, whatever its arguments. *)
Definition tools_return_strings : Prop :=
  forall tool args w v w',
    In tool TOOLS -> invoke tool args w = (Return v, w') -> exists s, v = VStr s.

End Server.

(* ===================================================================== *)
(** ** The grammar of JSON *)
(* ===================================================================== *)

(** "Valid JSON" is the grammar of RFC 8259.  [json.loads] accepts a
    little more: the constants NaN, Infinity and -Infinity stand for float
    values.  [ext] tells whether they are part of the grammar. *)

Definition is_ws_text (w : list ascii) : bool := forallb is_json_ws w.

Definition is_hex_digit (c : ascii) : bool :=
  Text.is_digit c || Text.in_range 97 102 c || Text.in_range 65 70 c.

(** What may follow a backslash, [u] apart: the quote, the backslash, the
    slash and the letters b, f, n, r and t. *)
Definition is_escape_letter (c : ascii) : bool :=
  is_char 34 c || is_char 92 c || is_char 47 c || is_char 98 c
  || is_char 102 c || is_char 110 c || is_char 114 c || is_char 116 c.

(** The characters between the quotes of a string: any character but the
    quote, the backslash and the control characters, or an escape. *)
Inductive string_chars : list ascii -> Prop :=
| chars_end : string_chars []
| chars_plain (c : ascii) (r : list ascii) :
    (Text.code c <? 32)%N = false -> is_char 34 c = false -> is_char 92 c = false ->
    string_chars r -> string_chars (c :: r)
| chars_escape (e : ascii) (r : list ascii) :
    is_escape_letter e = true ->
    string_chars r -> string_chars (backslash :: e :: r)
| chars_unicode (h1 h2 h3 h4 : ascii) (r : list ascii) :
    forallb is_hex_digit [h1; h2; h3; h4] = true ->
    string_chars r ->
    string_chars (backslash :: ascii_of_N 117 :: h1 :: h2 :: h3 :: h4 :: r).

(** number = [ minus ] int [ frac ] [ exp ] *)
Definition is_digits (ds : list ascii) : bool :=
  negb (is_nil ds) && forallb Text.is_digit ds.

Definition sign_text (s : list ascii) : Prop := s = [] \/ s = lit "-".

Definition int_text (s : list ascii) : Prop :=
  s = lit "0"
  \/ exists d ds, s = d :: ds /\ Text.is_digit d = true /\ is_char 48 d = false
                  /\ forallb Text.is_digit ds = true.

Definition frac_text (s : list ascii) : Prop :=
  s = [] \/ exists ds, s = lit "." ++ ds /\ is_digits ds = true.

Definition exp_text (s : list ascii) : Prop :=
  s = []
  \/ exists e sg ds,
       s = e :: sg ++ ds /\ (is_char 101 e || is_char 69 e) = true
       /\ (sg = [] \/ sg = lit "+" \/ sg = lit "-") /\ is_digits ds = true.

Definition number_text (s : list ascii) : Prop :=
  exists sign int frac exp,
    s = sign ++ int ++ frac ++ exp
    /\ sign_text sign /\ int_text int /\ frac_text frac /\ exp_text exp.

(** value = false / null / true / object / array / number / string, with
    white space allowed around the brackets, the braces, the commas and
    the colons. *)
Inductive json_value (ext : bool) : list ascii -> Prop :=
| value_null : json_value ext (lit "null")
| value_true : json_value ext (lit "true")
| value_false : json_value ext (lit "false")
| value_nan : ext = true -> json_value ext (lit "NaN")
| value_infinity : ext = true -> json_value ext (lit "Infinity")
| value_minus_infinity : ext = true -> json_value ext (lit "-Infinity")
| value_number (s : list ascii) : number_text s -> json_value ext s
| value_string (cs : list ascii) :
    string_chars cs -> json_value ext (dquote :: cs ++ [dquote])
| value_empty_array (w : list ascii) :
    is_ws_text w = true -> json_value ext (lit "[" ++ w ++ lit "]")
| value_array (body : list ascii) :
    json_items ext body -> json_value ext (lit "[" ++ body ++ lit "]")
| value_empty_object (w : list ascii) :
    is_ws_text w = true -> json_value ext (lit "{" ++ w ++ lit "}")
| value_object (body : list ascii) :
    json_members ext body -> json_value ext (lit "{" ++ body ++ lit "}")

with json_items (ext : bool) : list ascii -> Prop :=
| items_last (w1 v w2 : list ascii) :
    is_ws_text w1 = true -> json_value ext v -> is_ws_text w2 = true ->
    json_items ext (w1 ++ v ++ w2)
| items_more (w1 v w2 rest : list ascii) :
    is_ws_text w1 = true -> json_value ext v -> is_ws_text w2 = true ->
    json_items ext rest ->
    json_items ext (w1 ++ v ++ w2 ++ lit "," ++ rest)

with json_members (ext : bool) : list ascii -> Prop :=
| members_last (w1 k w2 w3 v w4 : list ascii) :
    is_ws_text w1 = true -> string_chars k -> is_ws_text w2 = true ->
    is_ws_text w3 = true -> json_value ext v -> is_ws_text w4 = true ->
    json_members ext
      (w1 ++ dquote :: k ++ dquote :: w2 ++ lit ":" ++ w3 ++ v ++ w4)
| members_more (w1 k w2 w3 v w4 rest : list ascii) :
    is_ws_text w1 = true -> string_chars k -> is_ws_text w2 = true ->
    is_ws_text w3 = true -> json_value ext v -> is_ws_text w4 = true ->
    json_members ext rest ->
    json_members ext
      (w1 ++ dquote :: k ++ dquote :: w2 ++ lit ":" ++ w3 ++ v ++ w4
         ++ lit "," ++ rest).

Scheme json_value_mut := Minimality for json_value Sort Prop
  with json_items_mut := Minimality for json_items Sort Prop
  with json_members_mut := Minimality for json_members Sort Prop.


(** JSON-text = ws value ws *)
Definition json_text (ext : bool) (text : string) : Prop :=
  exists w1 v w2,
    lit text = w1 ++ v ++ w2
    /\ is_ws_text w1 = true /\ json_value ext v /\ is_ws_text w2 = true.

(** [valid_json]: the text is valid JSON.  [python_json]: it is a text
    of the grammar [json.loads] goes by. *)
Definition valid_json (text : string) : Prop := json_text false text.

Definition python_json (text : string) : Prop := json_text true text.



(* ===================================================================== *)
(** ** What is used of the floats *)
(* ===================================================================== *)

(** The whole of [s] is what [NUMBER_RE] reads as a float: an integer
    part followed by a fraction, an exponent or both. *)
Definition is_float_lexeme (s : string) : bool :=
  match scan_int_part (lit s) with
  | Some (_, r1) =>
      let (frac, r2) := scan_frac r1 in
      let (exp, r3) := scan_exp r2 in
      is_nil r3 && negb (is_nil frac && is_nil exp)
  | None => false
  end.

Definition is_float_text (s : string) : bool :=
  is_float_lexeme s || String.eqb s "NaN" || String.eqb s "Infinity"
  || String.eqb s "-Infinity".

(** [json.dumps] writes a float with [float.__repr__], or as one of the
    constants NaN, Infinity and -Infinity; [repr] gives a decimal text
    with a fraction or an exponent, and enough digits for [float] to give
    the same float back. *)
Class FloatLaws `{FL : FloatLib} : Prop := {
  float_json_text : forall x, is_float_text (float_json x) = true;
  float_read_back :
    forall x, float_json x <> "NaN" -> float_of_literal (float_json x) = x;
}.

(* ===================================================================== *)
(** ** The endpoint [POST /api/chat] *)
(* ===================================================================== *)

Module Api.
Section Api.
Context `{FL : FloatLib} {SL : StrLib} {RT : PyRuntime} {IP : Interpreter}.

(** [AIMessage(content=text)]: a reply without tool calls. *)
Definition assistant_message (text : string) : AIMessage :=
  {| content := VStr text; tool_calls := Some [] |}.

(** [Literal["user", "assistant"]] *)
Inductive Role :=
| user
| assistant.

Record PastMsg := {
  role : Role;
  content : string;
}.

Record ChatRequest := {
  message : string;
  history : option (list PastMsg);
}.

Record ChatResponse := {
  reply : string;
}.

(** The message built for one entry of the history. *)
Definition to_message (m : PastMsg) : Message :=
  match role m with
  | user => HumanMessage (content m)
  | assistant => AIMsg (assistant_message (content m))
  end.

(** The loop [for m in (req.history or [])]. *)
Definition history_msgs (req : ChatRequest) : list Message :=
  List.map to_message (or_else (history req) []).

Definition chat {Provider : Type} (llm : list Message -> ST Provider AIMessage)
  (req : ChatRequest) : ST (@Env Provider) ChatResponse :=
  bind (run_chat llm (message req) (history_msgs req))
    (fun reply_text => ret {| reply := reply_text |}).

End Api.
End Api.

(* ===================================================================== *)
(** ** Further notions used to state the properties *)
(* ===================================================================== *)

Definition is_slug_or_dot (c : ascii) : bool := is_slug_char c || is_dot c.

Section MoreNotions.

Context `{FL : FloatLib} {SL : StrLib} {RT : PyRuntime} {IP : Interpreter}.

(** The world after one record has been generated: three numbers drawn,
    one clock reading taken, the files as they were. *)
Definition after_user (w : World) : World :=
  {| files := files w;
     randoms := tl (tl (tl (randoms w)));
     clock := tl (clock w) |}.

(** The numbers [random.randint] gives from the next three draws of [w],
    and the reading [_tznow] gives. *)
Definition draw (w : World) (k : nat) : Z := Z.of_N (nth k (randoms w) 0%N).

Definition reading (w : World) : Z := nth 0%nat (clock w) 0.

(** The record [generate_sample_user] builds in world [w]. *)
Definition record_in (w : World) (i : nat) (first last domain : string)
  (min_age max_age : Z) : PyVal :=
  VDict [(KStr "id", VInt (Z.of_nat i + 1));
         (KStr "firstName", VStr first);
         (KStr "lastName", VStr last);
         (KStr "email",
          VStr (_slugify first +:+ "." +:+ _slugify last +:+ "@"
                  +:+ str_lower (str_strip domain)));
         (KStr "username",
          VStr (_slugify first +:+ Text.str_of_Z (100 + draw w 0 mod 900)));
         (KStr "age", VInt (min_age + draw w 1 mod (max_age - min_age + 1)));
         (KStr "registeredAt",
          VStr (isoformat (reading w
                           - (1 + draw w 2 mod 365) * microseconds_per_day)))].

Fixpoint worlds_after (w : World) (n : nat) : World :=
  match n with
  | O => w
  | S n' => worlds_after (after_user w) n'
  end.

(** [u[k]] for an object [u]. *)
Definition field (u : PyVal) (k : string) : option PyVal :=
  match u with
  | VDict d => dict_get d (KStr k)
  | _ => None
  end.

(** The world in which the file at [p] holds [text]. *)
Definition set_file (w : World) (p text : string) : World :=
  {| files := <[p := Regular text]> (files w);
     randoms := randoms w; clock := clock w |}.

(** The lists [save_users] passes to the generator. *)
Definition saved_first_names (first_names : option (list string)) : list string :=
  or_default first_names ["John"; "Jane"; "Mike"].

Definition saved_last_names (last_names : option (list string)) : list string :=
  or_default last_names ["Smith"; "Jones"; "Brown"].

Definition saved_domains (domains : option (list string)) : list string :=
  or_default domains ["example.com"].

(** What the loop appends to the message list: round after round, the
    reply of the model followed by one tool message per tool call of that
    reply, in order. *)
Inductive rounds_trace : list Message -> Prop :=
| trace_end : rounds_trace []
| trace_round (ai : AIMessage) (tool_msgs rest : list Message) :
    Forall2 answers (or_else (tool_calls ai) []) tool_msgs ->
    rounds_trace rest ->
    rounds_trace (AIMsg ai :: tool_msgs ++ rest).

(** The reply [r] is the text of a reply the model gave without asking for
    a tool. *)
Definition plain_reply_of {Provider : Type}
  (llm : list Message -> ST Provider AIMessage) (r : string) : Prop :=
  exists messages p ai p',
    llm messages p = (Return ai, p')
    /\ or_else (tool_calls ai) [] = []
    /\ r = reply_text ai.

(** A model that plays a script: each invocation gives the next reply of
    the list, whatever the messages. *)
Definition scripted : list Message -> ST (list AIMessage) AIMessage :=
  fun _ script =>
    match script with
    | [] => (Raise (OtherError "no reply left"), [])
    | ai :: rest => (Return ai, rest)
    end.


Definition tool_request (tc : ToolCall) : AIMessage :=
  {| content := VStr ""; tool_calls := Some [tc] |}.

Definition final_answer (text : string) : AIMessage :=
  {| content := VStr text; tool_calls := None |}.

End MoreNotions.

(* ===================================================================== *)
(** ** Sample inputs *)
(* ===================================================================== *)

(** A runtime to run the examples with: floats are kept as their literal
    (a text that is no float literal standing for NaN), [lower] and
    [strip] are the operations of ASCII, [repr] and the default
    [json.dumps] are stood in for by the indented encoder, a datetime is
    shown as its number of microseconds, the position of a decoding error
    is that of the broken sample file below, and the interpreter encodes
    data nested 993 levels at most. *)
Definition example_floats : FloatLib :=
  {| pyfloat := string;
     float_of_literal := fun s => s;
     float_json := fun s => if is_float_text s then s else "NaN" |}.

Definition example_strings : StrLib :=
  {| str_lower := Text.lower;
     str_strip := Text.strip Text.is_space |}.

Definition example_runtime : @PyRuntime example_floats :=
  {| py_repr := @json_dumps example_floats;
     json_dumps_default := @json_dumps example_floats;
     isoformat := Text.str_of_Z;
     error_position := fun _ => "line 1 column 2 (char 1)" |}.

Definition example_interpreter : @Interpreter example_floats :=
  {| encoder_fits := fun v => (json_depth v <=? 993)%nat;
     decoder_fits := fun _ => true;
     encoder_error := fun _ =>
       "maximum recursion depth exceeded while calling a Python object";
     decoder_error := fun _ =>
       "maximum recursion depth exceeded while decoding a JSON array from a unicode string";
     shallow_encodes := fun v H =>
       proj2 (Nat.leb_le (json_depth v) 993)
         (Nat.le_trans _ 3 993 H (proj1 (Nat.leb_le 3 993) eq_refl));
     shallow_decodes := fun _ _ => eq_refl |}.

Section Examples.

#[local] Existing Instance example_floats.
#[local] Existing Instance example_strings.
#[local] Existing Instance example_runtime.
#[local] Existing Instance example_interpreter.

(** A world with a file that is not JSON, a file that holds the constant
    NaN and an entry that cannot be opened. *)
Definition example_world : World :=
  {| files := <["broken.json" := Regular "{oops"]>
                (<["nan.json" := Regular "NaN"]>
                   (<["locked.json" := Faulty "[Errno 13] Permission denied"]> ∅));
     randoms := [7; 41; 3; 250; 12; 99]%N;
     clock := [1700000000000000; 1700000000000001] |}.

Definition example_env : @Env unit := {| world := example_world; provider := tt |}.

Definition example_counting_env : @Env (unit * nat) :=
  {| world := example_world; provider := (tt, 0%nat) |}.

(** Calls: to a tool that is not registered, to [write_json] without its
    arguments, and to [generate_sample_user] with an empty list. *)
Definition unknown_call : ToolCall :=
  {| tc_name := Some "delete_everything"; tc_args := None; tc_id := Some "call_1" |}.


Definition generate_call : ToolCall :=
  {| tc_name := Some "generate_sample_user";
     tc_args := Some [(KStr "first_names", VList []);
                      (KStr "last_names", VList [VStr "Lee"]);
                      (KStr "domains", VList [VStr "example.org"]);
                      (KStr "min_age", VInt 18);
                      (KStr "max_age", VInt 30)];
     tc_id := Some "call_3" |}.

(** A model that asks for the same tool at every invocation. *)
Definition looping_reply : AIMessage :=
  {| content := VStr ""; tool_calls := Some [unknown_call; generate_call] |}.

Definition looping_llm : list Message -> ST unit AIMessage :=
  fun _ p => (Return looping_reply, p).

(** A mapping with string keys, and one with an integer key. *)
Definition example_data : list (PyKey * PyVal) :=
  [(KStr "name", VStr "Ann"); (KStr "tags", VList [VInt 1; VNone; VBool true]);
   (KStr "score", VFloat "2.5"); (KStr "nested", VDict [(KStr "n", VInt (-3))])].

Definition integer_keyed_data : PyVal := VDict [(KInt 1, VStr "a")].

(** A script: one call to a tool that is not registered, then a plain
    answer. *)
Definition example_script : list AIMessage :=
  [tool_request unknown_call; final_answer "done"].

Definition example_scripted_env : @Env (list AIMessage) :=
  {| world := example_world; provider := example_script |}.

(** A request with one exchange in its history. *)
Definition example_request : Api.ChatRequest :=
  {| Api.message := "two users please";
     Api.history := Some [ {| Api.role := Api.user; Api.content := "hi" |};
                           {| Api.role := Api.assistant;
                              Api.content := "hello, what do you need?" |} ] |}.


End Examples.

(* ===================================================================== *)
(** * Properties *)
(* ===================================================================== *)

Section Properties.

Context `{FL : FloatLib} {SL : StrLib} {RT : PyRuntime} {IP : Interpreter}.

(* ===================================================================== *)
(** ** Properties of the text helpers and of [_slugify] *)
(* ===================================================================== *)

Section SlugFacts.

Import Text.

Lemma is_empty_true (s : string) : is_empty s = true -> s = EmptyString.
Proof. destruct s; [reflexivity | discriminate]. Qed.

Lemma runs_cons (p : ascii -> bool) (s : string) :
  exists w ws, runs p s = w :: ws.
Proof.
  destruct s as [|c r]; simpl.
  - eauto.
  - destruct (p c); [destruct (runs p r)|]; eauto.
Qed.

Lemma runs_step (p : ascii -> bool) (c : ascii) (r w : string) (ws : list string) :
  runs p r = w :: ws ->
  runs p (String c r) = if p c then String c w :: ws else EmptyString :: w :: ws.
Proof. intros H. simpl. rewrite H. reflexivity. Qed.

Lemma append_cons (c : ascii) (r t : string) :
  String c r +:+ t = String c (r +:+ t).
Proof. reflexivity. Qed.

Lemma append_nil (t : string) : EmptyString +:+ t = t.
Proof. reflexivity. Qed.

Lemma append_empty_r (s : string) : s +:+ EmptyString = s.
Proof.
  induction s as [|c r IH]; [reflexivity|]. now rewrite append_cons, IH.
Qed.


Lemma join_cons (w : string) (ws : list string) :
  join "." (w :: ws) = w +:+ after_sep ws.
Proof.
  unfold join. destruct ws as [|w' ws]; simpl.
  - now rewrite append_empty_r.
  - reflexivity.
Qed.

Lemma join_nonempty (ws : list string) :
  Forall (fun w => is_empty w = false) ws ->
  is_empty (join "." ws) = true -> ws = [].
Proof.
  intros Hne H. destruct ws as [|w ws]; [reflexivity|].
  rewrite join_cons in H. inversion Hne as [|? ? Hw _]; subst.
  destruct w; [discriminate|]. rewrite append_cons in H. discriminate.
Qed.

Lemma words_nonempty (p : ascii -> bool) (s : string) :
  Forall (fun w => is_empty w = false) (words p s).
Proof.
  unfold words. apply Forall_forall. intros w Hin.
  apply list_elem_of_In, filter_In in Hin as [_ H]. now apply negb_true_iff in H.
Qed.

Lemma is_dot_slug (c : ascii) : is_slug_char c = true -> is_dot c = false.
Proof.
  destruct c as [[] [] [] [] [] [] [] []]; vm_compute; congruence.
Qed.

(** Inside a run being replaced, the substitution never starts with the
    separator, so stripping on the left does nothing more. *)
Lemma lstrip_sub_true (s : string) :
  lstrip is_dot (slug_re_sub_go true s) = slug_re_sub_go true s.
Proof.
  induction s as [|c r IH]; [reflexivity|]. simpl.
  destruct (is_slug_char c) eqn:Hc; [|exact IH].
  simpl. now rewrite (is_dot_slug c Hc).
Qed.

Lemma lstrip_sub (s : string) :
  lstrip is_dot (slug_re_sub s) = slug_re_sub_go true s.
Proof.
  unfold slug_re_sub. destruct s as [|c r]; [reflexivity|]. simpl.
  destruct (is_slug_char c) eqn:Hc.
  - simpl. now rewrite (is_dot_slug c Hc).
  - simpl. change (is_dot dot) with true. cbv iota. apply lstrip_sub_true.
Qed.

(** Stripping the separator on the right of the substituted text leaves
    the words joined by single separators. *)
Lemma rstrip_sub (s : string) :
  (forall w ws, runs is_slug_char s = w :: ws ->
     rstrip is_dot (slug_re_sub_go false s)
       = w +:+ after_sep (List.filter nonempty ws))
  /\ rstrip is_dot (slug_re_sub_go true s) = join "." (words is_slug_char s).
Proof.
  induction s as [|c r [IHf IHt]].
  - split; [|reflexivity]. intros w ws H. cbn in H. now inversion H.
  - destruct (runs_cons is_slug_char r) as (w0 & ws0 & Hr).
    assert (Hcons : rstrip is_dot (String c (slug_re_sub_go false r))
                    = String c (rstrip is_dot (slug_re_sub_go false r))
                    \/ is_slug_char c = false).
    { destruct (is_slug_char c) eqn:Hc; [left|now right].
      cbn [rstrip]. now rewrite (is_dot_slug c Hc). }
    split.
    + intros w ws H. rewrite (runs_step _ c r w0 ws0 Hr) in H.
      cbn [slug_re_sub_go].
      destruct (is_slug_char c) eqn:Hc.
      * inversion H; subst. destruct Hcons as [-> | ?]; [|discriminate].
        rewrite (IHf _ _ Hr). reflexivity.
      * inversion H; subst. cbn [rstrip]. rewrite IHt.
        change (is_dot dot) with true. cbn [andb].
        unfold words. rewrite Hr.
        destruct (is_empty (join "." (List.filter (fun w => negb (is_empty w)) (w0 :: ws0)))) eqn:He.
        -- apply join_nonempty in He.
           ++ unfold nonempty. rewrite He. reflexivity.
           ++ rewrite <- Hr. apply words_nonempty.
        -- unfold nonempty.
           destruct (List.filter (fun w => negb (is_empty w)) (w0 :: ws0)) eqn:Hf.
           ++ discriminate He.
           ++ reflexivity.
    + cbn [slug_re_sub_go]. unfold words.
      rewrite (runs_step _ c r w0 ws0 Hr).
      destruct (is_slug_char c) eqn:Hc.
      * destruct Hcons as [-> | ?]; [|discriminate].
        rewrite (IHf _ _ Hr). cbn [List.filter is_empty negb].
        now rewrite join_cons.
      * cbn [List.filter is_empty negb]. rewrite IHt. unfold words. now rewrite Hr.
Qed.

Lemma strip_sub (s : string) :
  strip is_dot (slug_re_sub s) = join "." (words is_slug_char s).
Proof. unfold strip. rewrite lstrip_sub. apply rstrip_sub. Qed.

Lemma is_empty_lower (w : string) : is_empty (lower w) = is_empty w.
Proof. now destruct w. Qed.

Lemma or_user_join (ws : list string) :
  Forall (fun w => is_empty w = false) ws ->
  or_user (join "." ws) = match ws with [] => "user" | _ => join "." ws end.
Proof.
  intros Hne. unfold or_user.
  destruct (is_empty (join "." ws)) eqn:He.
  - now rewrite (join_nonempty ws Hne He).
  - destruct ws; [discriminate He | reflexivity].
Qed.

Lemma runs_chars (p : ascii -> bool) (s : string) :
  Forall (fun w => all_chars p w = true) (runs p s).
Proof.
  induction s as [|c r IH]; [repeat constructor|].
  destruct (runs_cons p r) as (w & ws & Hr). rewrite Hr in IH.
  rewrite (runs_step p c r w ws Hr).
  inversion IH as [|? ? Hw Hws]; subst.
  destruct (p c) eqn:Hc; repeat constructor; auto. cbn. now rewrite Hc, Hw.
Qed.

Lemma words_chars (p : ascii -> bool) (s : string) :
  Forall (fun w => all_chars p w = true) (words p s).
Proof.
  unfold words. apply Forall_forall. intros w Hin.
  apply list_elem_of_In, filter_In in Hin as [Hin _].
  pose proof (runs_chars p s) as H. rewrite Forall_forall in H.
  apply H. now apply list_elem_of_In.
Qed.

Lemma all_chars_weaken (p q : ascii -> bool) (w : string) :
  (forall c, p c = true -> q c = true) ->
  all_chars p w = true -> all_chars q w = true.
Proof.
  intros Hpq. induction w as [|c r IH]; [reflexivity|]. cbn.
  intros H. apply andb_true_iff in H as [Hc H].
  now rewrite (Hpq c Hc), (IH H).
Qed.

Lemma all_chars_app (p : ascii -> bool) (a b : string) :
  all_chars p (a +:+ b) = all_chars p a && all_chars p b.
Proof.
  induction a as [|c r IH]; [reflexivity|].
  rewrite append_cons. cbn. now rewrite IH, andb_assoc.
Qed.









(** The code's view of [_slugify]: the maximal runs of the characters
    a-z and 0-9 of the stripped, lowercased text, joined by the
    separator. *)
Lemma slugify_words (s : string) :
  _slugify s = or_user (join "." (words is_slug_char (str_lower (str_strip s)))).
Proof. unfold _slugify. now rewrite strip_sub. Qed.

Section SlugSpec.

Context {SLw : StrLaws}.


End SlugSpec.

End SlugFacts.

(* ===================================================================== *)
(** ** The sample-user generator *)
(* ===================================================================== *)

Section Generator.

Lemma bind_return {S A B} (c : ST S A) (k : A -> ST S B) (s s' : S) (a : A) :
  c s = (Return a, s') -> bind c k s = k a s'.
Proof. intros H. unfold bind. now rewrite H. Qed.

Lemma randint_in_range (a b : Z) (w : World) :
  a <= b -> exists r w', randint a b w = (Return r, w') /\ a <= r <= b.
Proof.
  intros Hab. unfold randint.
  destruct (b <? a) eqn:Hlt; [apply Z.ltb_lt in Hlt; lia|].
  eexists _, _. split; [reflexivity|].
  pose proof (Z.mod_pos_bound
                (Z.of_N match randoms w with [] => 0%N | r :: _ => r end)
                (b - a + 1)) as Hm.
  lia.
Qed.

Lemma nth_error_mod {A} (l : list A) (i : nat) :
  l <> [] -> exists x, nth_error l (Nat.modulo i (length l)) = Some x.
Proof.
  intros Hl. destruct (nth_error l (Nat.modulo i (length l))) eqn:H; [eauto|].
  apply nth_error_None in H.
  assert (length l <> 0)%nat by (destruct l; [congruence | simpl; lia]).
  pose proof (Nat.mod_upper_bound i (length l)). lia.
Qed.

Lemma py_mod_ok (i n : nat) (w : World) :
  n <> 0%nat -> py_mod i n w = (Return (Nat.modulo i n), w).
Proof.
  intros Hn. unfold py_mod. destruct (Nat.eqb n 0) eqn:E; [|reflexivity].
  apply Nat.eqb_eq in E. contradiction.
Qed.

Lemma length_nonzero {A} (l : list A) : l <> [] -> length l <> 0%nat.
Proof. destruct l; [congruence | simpl; lia]. Qed.

Lemma make_user_ok (i : nat) (first : string) (last_names domains : list string)
  (min_age max_age : Z) (w : World) :
  last_names <> [] -> domains <> [] -> min_age <= max_age ->
  exists last domain u w',
    nth_error last_names (Nat.modulo i (length last_names)) = Some last
    /\ nth_error domains (Nat.modulo i (length domains)) = Some domain
    /\ make_user i first last_names domains min_age max_age w = (Return u, w')
    /\ user_record i first last domain min_age max_age u.
Proof.
  intros Hl Hd Hage.
  destruct (nth_error_mod last_names i Hl) as [last Hlast].
  destruct (nth_error_mod domains i Hd) as [domain Hdom].
  exists last, domain. unfold make_user.
  rewrite (bind_return _ _ _ _ _ (py_mod_ok i _ w (length_nonzero _ Hl))).
  unfold list_item at 1. rewrite Hlast.
  rewrite (bind_return _ _ w w last eq_refl).
  rewrite (bind_return _ _ _ _ _ (py_mod_ok i _ w (length_nonzero _ Hd))).
  unfold list_item at 1. rewrite Hdom.
  rewrite (bind_return _ _ w w domain eq_refl).
  destruct (randint_in_range 100 999 w ltac:(lia)) as (suffix & w1 & E1 & B1).
  rewrite (bind_return _ _ _ _ _ E1).
  destruct (randint_in_range min_age max_age w1 Hage) as (age & w2 & E2 & B2).
  rewrite (bind_return _ _ _ _ _ E2).
  destruct (_tznow w2) as [now w3] eqn:E3.
  assert (exists t, now = Return t) as [t ->]
    by (unfold _tznow in E3; inversion E3; eauto).
  rewrite (bind_return _ _ _ _ _ E3).
  destruct (randint_in_range 1 365 w3 ltac:(lia)) as (days & w4 & E4 & B4).
  rewrite (bind_return _ _ _ _ _ E4).
  eexists _, _. do 3 (split; [reflexivity|]).
  exists suffix, age, (isoformat (t - days * microseconds_per_day)). auto.
Qed.

Lemma gen_users_ok (first_names last_names domains : list string)
  (min_age max_age : Z) :
  last_names <> [] -> domains <> [] -> min_age <= max_age ->
  forall (i : nat) (users : list PyVal) (w : World),
  exists new w',
    gen_users i first_names last_names domains min_age max_age users w
      = (Return (users ++ new), w')
    /\ length new = length first_names
    /\ forall j first,
         nth_error first_names j = Some first ->
         exists last domain u,
           nth_error last_names (Nat.modulo (i + j) (length last_names)) = Some last
           /\ nth_error domains (Nat.modulo (i + j) (length domains)) = Some domain
           /\ nth_error new j = Some u
           /\ user_record (i + j) first last domain min_age max_age u.
Proof.
  intros Hl Hd Hage.
  induction first_names as [|first rest IH]; intros i users w.
  - exists [], w. cbn [gen_users]. unfold ret. rewrite app_nil_r.
    split; [reflexivity|]. split; [reflexivity|].
    intros [|j] f Hf; discriminate Hf.
  - destruct (make_user_ok i first last_names domains min_age max_age w Hl Hd Hage)
      as (last & domain & u & w1 & Hlast & Hdom & Hu & Hrec).
    destruct (IH (S i) (users ++ [u]) w1) as (new & w2 & Hgen & Hlen & Hall).
    exists (u :: new), w2. cbn [gen_users].
    rewrite (bind_return _ _ _ _ _ Hu), Hgen, <- app_assoc.
    split; [reflexivity|]. split; [simpl; now rewrite Hlen|].
    intros [|j] f Hf.
    + cbn in Hf. inversion Hf; subst f. rewrite Nat.add_0_r.
      exists last, domain, u. auto.
    + cbn in Hf. replace (i + S j)%nat with (S i + j)%nat by lia.
      apply Hall, Hf.
Qed.

Lemma generate_sample_user_valid_aux (first_names last_names domains : list string)
  (min_age max_age : Z) (w : World) :
  first_names <> [] -> last_names <> [] -> domains <> [] ->
  0 <= min_age -> min_age <= max_age ->
  exists users w',
    generate_sample_user first_names last_names domains min_age max_age w
      = (Return (VDict [(KStr "users", VList users);
                        (KStr "count", VInt (Z.of_nat (length first_names)))]), w')
    /\ length users = length first_names
    /\ forall i first,
         nth_error first_names i = Some first ->
         exists last domain u,
           nth_error last_names (Nat.modulo i (length last_names)) = Some last
           /\ nth_error domains (Nat.modulo i (length domains)) = Some domain
           /\ nth_error users i = Some u
           /\ user_record i first last domain min_age max_age u.
Proof.
  intros Hf Hl Hd Hmin Hage.
  destruct (gen_users_ok first_names last_names domains min_age max_age
              Hl Hd Hage 0%nat [] w) as (users & w' & Hgen & Hlen & Hall).
  exists users, w'. unfold generate_sample_user.
  destruct first_names as [|f fs]; [congruence|].
  destruct last_names as [|l ls]; [congruence|].
  destruct domains as [|d ds]; [congruence|].
  cbn [is_nil].
  destruct (min_age >? max_age) eqn:E1; [apply Z.gtb_lt in E1; lia|].
  destruct (min_age <? 0) eqn:E2; [apply Z.ltb_lt in E2; lia|].
  destruct (max_age <? 0) eqn:E3; [apply Z.ltb_lt in E3; lia|].
  cbn [orb]. rewrite (bind_return _ _ _ _ _ Hgen). cbn [app]. unfold ret.
  rewrite Hlen. split; [reflexivity|]. split; [reflexivity|].
  exact Hall.
Qed.

(** C5. For valid arguments (the three lists non-empty,
    [0 <= min_age <= max_age]), in any world, [generate_sample_user]
    returns the object with "users" and "count", where count is
    [len(first_names)], there is one record per first name, and the [i]-th
    record (from 0) has id [i + 1], the [i]-th first name, the last name
    and the domain at index [i] modulo the length of their lists (the
    domain as the part of the email after "@"), and an age within
    [[min_age, max_age]]. *)
Theorem generate_sample_user_valid (first_names last_names domains : list string)
  (min_age max_age : Z) (w : World) :
  first_names <> [] -> last_names <> [] -> domains <> [] ->
  0 <= min_age -> min_age <= max_age ->
  exists users w',
    generate_sample_user first_names last_names domains min_age max_age w
      = (Return (VDict [(KStr "users", VList users);
                        (KStr "count", VInt (Z.of_nat (length first_names)))]), w')
    /\ length users = length first_names
    /\ forall i first,
         nth_error first_names i = Some first ->
         exists last domain u,
           nth_error last_names (Nat.modulo i (length last_names)) = Some last
           /\ nth_error domains (Nat.modulo i (length domains)) = Some domain
           /\ nth_error users i = Some u
           /\ user_record i first last domain min_age max_age u.
Proof.
  apply generate_sample_user_valid_aux.
Qed.

Lemma check_message_names_subject (min_age max_age : Z) (c : Check) :
  Text.contains (check_subject c) (check_message min_age max_age c).
Proof.
  destruct c.
  - exists "", " list cannot be empty". reflexivity.
  - exists "", " list cannot be empty". reflexivity.
  - exists "", " list cannot be empty". reflexivity.
  - exists "", (" (" +:+ Text.str_of_Z min_age
                 +:+ ") cannot be greater than max_age ("
                 +:+ Text.str_of_Z max_age +:+ ")").
    reflexivity.
  - exists "", " must be non-negative". reflexivity.
Qed.

(** C6. [generate_sample_user] checks its arguments in the fixed order
    empty first_names, empty last_names, empty domains, min_age above
    max_age, negative age.  When some check fails, the result is the single
    error object of the first failing one, its message names what is wrong
    (first_names, last_names, domains, min_age, ages), and nothing later
    runs: the world is left as it was.  When no check fails the users
    object is returned. *)
Theorem generate_sample_user_validation (first_names last_names domains : list string)
  (min_age max_age : Z) (w : World) :
  match first_failing_check first_names last_names domains min_age max_age with
  | Some c =>
      generate_sample_user first_names last_names domains min_age max_age w
        = (Return (error_dict (check_message min_age max_age c)), w)
      /\ Text.contains (check_subject c) (check_message min_age max_age c)
  | None =>
      exists users w',
        generate_sample_user first_names last_names domains min_age max_age w
          = (Return (VDict [(KStr "users", VList users);
                            (KStr "count", VInt (Z.of_nat (length first_names)))]),
             w')
  end.
Proof.
  unfold first_failing_check, validation_order. cbn [List.find check_fails].
  destruct first_names as [|f fs]; cbn [is_nil].
  { split; [reflexivity | apply check_message_names_subject]. }
  destruct last_names as [|l ls]; cbn [is_nil].
  { split; [reflexivity | apply check_message_names_subject]. }
  destruct domains as [|d ds]; cbn [is_nil].
  { split; [reflexivity | apply check_message_names_subject]. }
  destruct (min_age >? max_age) eqn:E1.
  { split; [|apply check_message_names_subject].
    unfold generate_sample_user. cbn [is_nil]. now rewrite E1. }
  destruct ((min_age <? 0) || (max_age <? 0)) eqn:E2.
  { split; [|apply check_message_names_subject].
    unfold generate_sample_user. cbn [is_nil]. now rewrite E1, E2. }
  apply orb_false_iff in E2 as [E2 _].
  apply Z.ltb_ge in E2. 
  assert (min_age <= max_age) as Hage.
  { destruct (Z.gtb_spec min_age max_age); [discriminate | lia]. }
  destruct (generate_sample_user_valid_aux (f :: fs) (l :: ls) (d :: ds)
              min_age max_age w) as (users & w' & H & _); try congruence; try lia.
  eauto.
Qed.

End Generator.

(* ===================================================================== *)
(** ** The tool-calling loop *)
(* ===================================================================== *)



Lemma loop_limit_is_no_tool_error (text : string) :
  tool_error_text text -> text <> LOOP_LIMIT_MESSAGE.
Proof.
  intros H. destruct H; unfold LOOP_LIMIT_MESSAGE; rewrite ?append_cons;
    intros E; discriminate E.
Qed.

Section LoopFacts.

Context {Provider : Type}.

Lemma run_tool_call_returns (tc : ToolCall) (messages : list Message)
  (s : @Env Provider) :
  exists text s',
    run_tool_call tc messages s
      = (Return (messages ++ [ToolMessage text (or_else (tc_id tc) "")]), s')
    /\ provider s' = provider s.
Proof.
  unfold run_tool_call.
  destruct (TOOLS_BY_NAME !! or_else (tc_name tc) "") as [tool|].
  - unfold bind, try_except, in_world, ret.
    destruct (invoke tool (or_else (tc_args tc) []) (world s)) as [[v|e] w'];
      eexists _, _; split; reflexivity.
  - eexists _, _. split; reflexivity.
Qed.

Lemma run_tool_calls_returns (tcs : list ToolCall) (messages : list Message)
  (s : @Env Provider) :
  exists tool_msgs s',
    run_tool_calls tcs messages s = (Return (messages ++ tool_msgs), s')
    /\ Forall2 answers tcs tool_msgs
    /\ provider s' = provider s.
Proof.
  revert messages s. induction tcs as [|tc rest IH]; intros messages s.
  - exists [], s. cbn. rewrite app_nil_r. repeat split. constructor.
  - destruct (run_tool_call_returns tc messages s) as (text & s1 & H1 & P1).
    destruct (IH (messages ++ [ToolMessage text (or_else (tc_id tc) "")]) s1)
      as (more & s2 & H2 & F2 & P2).
    exists (ToolMessage text (or_else (tc_id tc) "") :: more), s2.
    cbn [run_tool_calls]. rewrite (bind_return _ _ _ _ _ H1), H2, <- app_assoc.
    split; [reflexivity|]. split; [|congruence].
    constructor; [now exists text | exact F2].
Qed.

Variable llm : list Message -> ST Provider AIMessage.

Lemma chat_rounds_step (k : nat) (messages : list Message) (s : @Env Provider)
  (ai : AIMessage) (p' : Provider) :
  llm messages (provider s) = (Return ai, p') ->
  chat_rounds llm (S k) messages s
  = match or_else (tool_calls ai) [] with
    | [] => (Return (reply_text ai, messages ++ [AIMsg ai]),
             {| world := world s; provider := p' |})
    | tcs =>
        bind (run_tool_calls tcs (messages ++ [AIMsg ai]))
          (fun messages' => chat_rounds llm k messages')
          {| world := world s; provider := p' |}
    end.
Proof.
  intros H. cbn [chat_rounds]. unfold bind at 1, in_provider. rewrite H.
  now destruct (or_else (tool_calls ai) []).
Qed.

Lemma chat_rounds_llm_raises (k : nat) (messages : list Message) (s : @Env Provider)
  (e : Exception) (p' : Provider) :
  llm messages (provider s) = (Raise e, p') ->
  chat_rounds llm (S k) messages s
  = (Raise e, {| world := world s; provider := p' |}).
Proof.
  intros H. cbn [chat_rounds]. unfold bind at 1, in_provider. now rewrite H.
Qed.

(** C2. In every round, once the model has answered with tool calls, the
    loop appends exactly one tool message per call, in the order of the
    calls and each with the id of its call, and only then goes on to the
    next round, whose model invocation sees the list so extended. *)
Theorem every_tool_call_is_answered (k : nat) (messages : list Message)
  (s : @Env Provider) (ai : AIMessage) (p' : Provider) :
  llm messages (provider s) = (Return ai, p') ->
  or_else (tool_calls ai) [] <> [] ->
  exists tool_msgs s',
    run_tool_calls (or_else (tool_calls ai) []) (messages ++ [AIMsg ai])
      {| world := world s; provider := p' |}
      = (Return (messages ++ [AIMsg ai] ++ tool_msgs), s')
    /\ Forall2 answers (or_else (tool_calls ai) []) tool_msgs
    /\ chat_rounds llm (S k) messages s
       = chat_rounds llm k (messages ++ [AIMsg ai] ++ tool_msgs) s'.
Proof.
  intros Hllm Hcalls.
  destruct (run_tool_calls_returns (or_else (tool_calls ai) [])
              (messages ++ [AIMsg ai]) {| world := world s; provider := p' |})
    as (tool_msgs & s' & Hrun & Hans & _).
  exists tool_msgs, s'. rewrite <- app_assoc in Hrun.
  split; [exact Hrun|]. split; [exact Hans|].
  rewrite (chat_rounds_step k messages s ai p' Hllm).
  destruct (or_else (tool_calls ai) []) as [|tc tcs] eqn:E; [congruence|].
  now rewrite (bind_return _ _ _ _ _ Hrun).
Qed.




End LoopFacts.

Section Counting.

Context {Provider : Type}.
Variable llm : list Message -> ST Provider AIMessage.

Lemma chat_rounds_invocations (k : nat) (messages : list Message)
  (s : @Env (Provider * nat)) :
  (invocations (snd (chat_rounds (counting llm) k messages s))
   <= invocations s + k)%nat.
Proof.
  revert messages s. induction k as [|k IH]; intros messages s.
  - cbn. lia.
  - destruct (counting llm messages (provider s)) as [[ai|e] p'] eqn:Hllm.
    + assert (snd p' = S (invocations s)) as Hp.
      { unfold counting in Hllm.
        destruct (llm messages (fst (provider s))); now inversion Hllm. }
      rewrite (chat_rounds_step _ k messages s ai p' Hllm).
      destruct (or_else (tool_calls ai) []) as [|tc tcs].
      * cbn. unfold invocations. cbn. unfold invocations in Hp. lia.
      * destruct (run_tool_calls_returns (tc :: tcs) (messages ++ [AIMsg ai])
                    {| world := world s; provider := p' |})
          as (tool_msgs & s1 & Hrun & _ & Hprov).
        rewrite (bind_return _ _ _ _ _ Hrun).
        specialize (IH ((messages ++ [AIMsg ai]) ++ tool_msgs) s1).
        assert (invocations s1 = S (invocations s)) as Hs1.
        { unfold invocations. rewrite Hprov. exact Hp. }
        etransitivity; [apply IH|]. lia.
    + assert (snd p' = S (invocations s)) as Hp.
      { unfold counting in Hllm.
        destruct (llm messages (fst (provider s))); now inversion Hllm. }
      rewrite (chat_rounds_llm_raises _ k messages s e p' Hllm).
      cbn. unfold invocations. cbn. unfold invocations in Hp. lia.
Qed.

Lemma chat_rounds_exhausted (k : nat) (messages : list Message)
  (s : @Env (Provider * nat)) :
  always_calls_tools llm ->
  exists msgs s',
    chat_rounds (counting llm) k messages s = (Return (LOOP_LIMIT_MESSAGE, msgs), s')
    /\ invocations s' = (invocations s + k)%nat.
Proof.
  intros Halways. revert messages s. induction k as [|k IH]; intros messages s.
  - exists messages, s. split; [reflexivity | lia].
  - destruct (Halways messages (fst (provider s))) as (ai & p1 & Hllm & Hcalls).
    assert (counting llm messages (provider s)
            = (Return ai, (p1, S (invocations s)))) as Hc.
    { unfold counting. now rewrite Hllm. }
    rewrite (chat_rounds_step _ k messages s ai _ Hc).
    destruct (or_else (tool_calls ai) []) as [|tc tcs]; [congruence|].
    destruct (run_tool_calls_returns (tc :: tcs) (messages ++ [AIMsg ai])
                {| world := world s; provider := (p1, S (invocations s)) |})
      as (tool_msgs & s1 & Hrun & _ & Hprov).
    rewrite (bind_return _ _ _ _ _ Hrun).
    destruct (IH ((messages ++ [AIMsg ai]) ++ tool_msgs) s1) as (msgs & s' & H & Hn).
    exists msgs, s'. split; [exact H|].
    rewrite Hn. unfold invocations at 1. rewrite Hprov. cbn. lia.
Qed.

(** C1. Whatever the input, the history and the model, [run_chat] invokes
    the model at most 8 times; with a model that answers every invocation
    with a tool call it invokes it exactly 8 times and then returns the
    fixed text "Error: exceeded tool-calling loop limit."; and that text
    is none of the error texts of the tools and of the dispatch. *)
Theorem run_chat_is_bounded (input_text : string) (history_msgs : list Message)
  (s : @Env (Provider * nat)) :
  (invocations (snd (run_chat (counting llm) input_text history_msgs s))
   <= invocations s + 8)%nat
  /\ (always_calls_tools llm ->
      exists s',
        run_chat (counting llm) input_text history_msgs s
          = (Return "Error: exceeded tool-calling loop limit.", s')
        /\ invocations s' = (invocations s + 8)%nat)
  /\ (forall text, tool_error_text text ->
        text <> "Error: exceeded tool-calling loop limit.").
Proof.
  split; [|split].
  - pose proof (chat_rounds_invocations 8
                  (initial_messages input_text history_msgs) s) as H.
    unfold run_chat, run_chat_trace, bind.
    destruct (chat_rounds (counting llm) 8
                (initial_messages input_text history_msgs) s) as [[r|e] s'];
      exact H.
  - intros Halways.
    destruct (chat_rounds_exhausted 8 (initial_messages input_text history_msgs)
                s Halways) as (msgs & s' & H & Hn).
    exists s'. split; [|exact Hn].
    unfold run_chat, run_chat_trace, bind. now rewrite H.
  - apply loop_limit_is_no_tool_error.
Qed.

End Counting.


(* ===================================================================== *)
(** ** The JSON encoder and decoder *)
(* ===================================================================== *)

Section JsonFacts.

Lemma skip_ws_stop (c : ascii) (s : list ascii) :
  is_json_ws c = false -> skip_ws (c :: s) = c :: s.
Proof. intros H. cbn. now rewrite H. Qed.

Lemma skip_ws_spaces (n : nat) (s : list ascii) :
  skip_ws (repeat space n ++ s) = skip_ws s.
Proof. induction n as [|n IH]; [reflexivity | exact IH]. Qed.

Lemma skip_ws_indent (level : nat) (s : list ascii) :
  skip_ws (newline_indent level ++ s) = skip_ws s.
Proof. unfold newline_indent. cbn. apply skip_ws_spaces. Qed.

Lemma scan_escape_char (c : ascii) (tail : list ascii) :
  scan_string (escape_char c ++ tail) = prepend [c] (scan_string tail).
Proof.
  destruct c as [[] [] [] [] [] [] [] []]; reflexivity.
Qed.

Lemma scan_string_escaped (cs rest : list ascii) :
  scan_string (flat_map escape_char cs ++ dquote :: rest) = POk cs rest.
Proof.
  induction cs as [|c cs IH]; [reflexivity|].
  cbn [flat_map]. rewrite <- app_assoc, scan_escape_char, IH. reflexivity.
Qed.


(** Decimal digits *)
Lemma uint_digits (u : Decimal.uint) :
  forallb Text.is_digit (lit (NilEmpty.string_of_uint u)) = true.
Proof. induction u; cbn; auto. Qed.

Lemma to_uint_unorm (p : positive) : Decimal.unorm (Pos.to_uint p) = Pos.to_uint p.
Proof.
  rewrite <- (DecimalPos.Unsigned.to_of (Pos.to_uint p)).
  now rewrite DecimalPos.Unsigned.of_to.
Qed.

Lemma to_uint_head (p : positive) :
  exists d ds,
    lit (NilZero.string_of_uint (Pos.to_uint p)) = d :: ds
    /\ Text.is_digit d = true /\ is_char 48 d = false
    /\ forallb Text.is_digit ds = true.
Proof.
  pose proof (to_uint_unorm p) as Hn.
  pose proof (DecimalPos.Unsigned.to_uint_nonzero p) as Hz.
  pose proof (uint_digits (Pos.to_uint p)) as Hd.
  assert (Decimal.nzhead (Pos.to_uint p) = Pos.to_uint p) as Hh.
  { unfold Decimal.unorm in Hn.
    destruct (Decimal.nzhead (Pos.to_uint p)) eqn:E; try exact Hn.
    now rewrite <- Hn in Hz. }
  pose proof (DecimalFacts.nzhead_nonzero (Pos.to_uint p)) as Hnz.
  rewrite Hh in Hnz.
  destruct (Pos.to_uint p) as [|u|u|u|u|u|u|u|u|u|u].
  1: now contradiction (DecimalPos.Unsigned.to_uint_nonnil p).
  1: now contradiction (Hnz u).
  all: cbn in Hd |- *; eexists _, _; repeat split; try reflexivity; exact Hd.
Qed.


Lemma after_value_no_number (rest : list ascii) :
  after_value rest = true ->
  span_digits rest = ([], rest) /\ scan_frac rest = ([], rest)
  /\ scan_exp rest = ([], rest).
Proof.
  destruct rest as [|c r]; [now repeat split|].
  destruct c as [[] [] [] [] [] [] [] []]; vm_compute; intros H;
    try discriminate H; now repeat split.
Qed.

Lemma span_digits_app (ds rest : list ascii) :
  forallb Text.is_digit ds = true ->
  span_digits rest = ([], rest) ->
  span_digits (ds ++ rest) = (ds, rest).
Proof.
  intros Hd Hr. induction ds as [|d ds IH]; [exact Hr|].
  cbn in Hd. apply andb_true_iff in Hd as [Hd Hds].
  cbn [app span_digits]. now rewrite Hd, (IH Hds).
Qed.

Lemma digit_not_minus (d : ascii) : Text.is_digit d = true -> is_char 45 d = false.
Proof. destruct d as [[] [] [] [] [] [] [] []]; vm_compute; congruence. Qed.

Lemma int_of_lexeme_str (n : Z) : int_of_lexeme (lit (Text.str_of_Z n)) = n.
Proof.
  unfold int_of_lexeme, lit, Text.str_of_Z.
  rewrite string_of_list_ascii_of_string, NilZero.isi.
  - apply DecimalZ.of_to.
  - destruct n; cbn; try discriminate.
    intros E. injection E as E. now apply DecimalPos.Unsigned.to_uint_nonnil in E.
  - destruct n; cbn; try discriminate.
    intros E. injection E as E. now apply DecimalPos.Unsigned.to_uint_nonnil in E.
Qed.

Lemma scan_int_part_digits (d : ascii) (ds rest : list ascii) :
  Text.is_digit d = true -> is_char 48 d = false ->
  forallb Text.is_digit ds = true -> span_digits rest = ([], rest) ->
  scan_int_part ((d :: ds) ++ rest) = Some (d :: ds, rest)
  /\ scan_int_part ((ascii_of_N 45 :: d :: ds) ++ rest)
     = Some (ascii_of_N 45 :: d :: ds, rest).
Proof.
  intros Hd H0 Hds Hr. unfold scan_int_part. cbn [app].
  rewrite (digit_not_minus d Hd).
  change (is_char 45 (ascii_of_N 45)) with true. cbv iota.
  now rewrite H0, Hd, (span_digits_app ds rest Hds Hr).
Qed.

Lemma scan_number_int (n : Z) (rest : list ascii) :
  after_value rest = true ->
  scan_number (lit (Text.str_of_Z n) ++ rest) = Some (VInt n, rest).
Proof.
  intros Hrest.
  destruct (after_value_no_number rest Hrest) as (Hspan & Hfrac & Hexp).
  assert (scan_int_part (lit (Text.str_of_Z n) ++ rest)
          = Some (lit (Text.str_of_Z n), rest)) as Hint.
  { destruct n as [|p|p].
    - reflexivity.
    - destruct (to_uint_head p) as (d & ds & E & Hd & H0 & Hds).
      unfold Text.str_of_Z. cbn [Z.to_int NilZero.string_of_int]. rewrite E.
      now apply scan_int_part_digits.
    - destruct (to_uint_head p) as (d & ds & E & Hd & H0 & Hds).
      unfold Text.str_of_Z. cbn [Z.to_int NilZero.string_of_int].
      change (lit (String "-" ?s)) with (ascii_of_N 45 :: lit s).
      cbn [lit list_ascii_of_string]. fold (lit (NilZero.string_of_uint (Pos.to_uint p))).
      rewrite E. now apply scan_int_part_digits. }
  unfold scan_number. rewrite Hint, Hfrac, Hexp.
  now rewrite int_of_lexeme_str.
Qed.


(** Floats: what follows a value never continues a number, so a float
    literal is read whole. *)
Lemma after_value_no_sign (rest : list ascii) :
  after_value rest = true ->
  match rest with
  | g :: _ => (is_char 43 g || is_char 45 g) = false
  | [] => True
  end.
Proof.
  destruct rest as [|c r]; [easy|].
  destruct c as [[] [] [] [] [] [] [] []]; vm_compute; congruence.
Qed.

Lemma span_digits_ext (a rest ds r : list ascii) :
  span_digits a = (ds, r) -> span_digits rest = ([], rest) ->
  span_digits (a ++ rest) = (ds, r ++ rest) /\ a = ds ++ r.
Proof.
  intros Ha Hrest. revert ds r Ha. induction a as [|c a IH]; intros ds r Ha.
  - cbn in Ha. inversion Ha; subst. now split.
  - cbn [span_digits] in Ha. cbn [app span_digits].
    destruct (Text.is_digit c).
    + destruct (span_digits a) as [ds' r'] eqn:E. inversion Ha; subst.
      destruct (IH ds' r eq_refl) as [-> ->]. now split.
    + inversion Ha; subst. now split.
Qed.

Lemma scan_int_part_ext (a rest ip r1 : list ascii) :
  scan_int_part a = Some (ip, r1) -> span_digits rest = ([], rest) ->
  scan_int_part (a ++ rest) = Some (ip, r1 ++ rest) /\ a = ip ++ r1.
Proof.
  intros Ha Hrest. unfold scan_int_part in Ha |- *.
  assert (forall sign s1,
            match s1 with
            | d :: r =>
                if is_char 48 d then Some (sign ++ [d], r)
                else if Text.is_digit d then
                       let (ds, rest0) := span_digits r in Some (sign ++ d :: ds, rest0)
                     else None
            | [] => None
            end = Some (ip, r1) ->
            match s1 ++ rest with
            | d :: r =>
                if is_char 48 d then Some (sign ++ [d], r)
                else if Text.is_digit d then
                       let (ds, rest0) := span_digits r in Some (sign ++ d :: ds, rest0)
                     else None
            | [] => None
            end = Some (ip, r1 ++ rest) /\ sign ++ s1 = ip ++ r1) as Hbody.
  { intros sign s1 H. destruct s1 as [|d r]; [discriminate H|]. cbn [app].
    destruct (is_char 48 d).
    - inversion H; subst. split; [reflexivity|]. now rewrite <- app_assoc.
    - destruct (Text.is_digit d); [|discriminate H].
      destruct (span_digits r) as [ds rest0] eqn:E.
      destruct (span_digits_ext r rest ds rest0 E Hrest) as [-> ->].
      inversion H; subst. split; [reflexivity|].
      now rewrite <- app_assoc. }
  destruct a as [|c a]; [discriminate Ha|]. cbn [app].
  destruct (is_char 45 c).
  - exact (Hbody [c] a Ha).
  - exact (Hbody [] (c :: a) Ha).
Qed.

Lemma scan_frac_ext (a rest frac r2 : list ascii) :
  scan_frac a = (frac, r2) -> after_value rest = true ->
  scan_frac (a ++ rest) = (frac, r2 ++ rest) /\ a = frac ++ r2.
Proof.
  intros Ha Hav.
  destruct (after_value_no_number rest Hav) as (Hspan & Hfrac & _).
  destruct a as [|c a].
  - cbn in Ha. inversion Ha; subst. now split.
  - cbn [scan_frac] in Ha. cbn [app scan_frac].
    destruct (is_char 46 c); [|inversion Ha; subst; now split].
    destruct (span_digits a) as [ds r] eqn:E.
    destruct (span_digits_ext a rest ds r E Hspan) as [-> Ea].
    destruct ds as [|d ds]; inversion Ha; subst; now split.
Qed.

Lemma scan_exp_ext (a rest exp r3 : list ascii) :
  scan_exp a = (exp, r3) -> after_value rest = true ->
  scan_exp (a ++ rest) = (exp, r3 ++ rest) /\ a = exp ++ r3.
Proof.
  intros Ha Hav.
  destruct (after_value_no_number rest Hav) as (Hspan & _ & Hexp).
  pose proof (after_value_no_sign rest Hav) as Hsign.
  destruct a as [|c a].
  - cbn in Ha. inversion Ha; subst. now split.
  - cbn [scan_exp] in Ha. cbn [app scan_exp].
    destruct (is_char 101 c || is_char 69 c); [|inversion Ha; subst; now split].
    assert (forall sign a1,
              match span_digits a1 with
              | ([], _) => ([], c :: a)
              | (ds, r) => (c :: sign ++ ds, r)
              end = (exp, r3) ->
              sign ++ a1 = a ->
              match span_digits (a1 ++ rest) with
              | ([], _) => ([], c :: a ++ rest)
              | (ds, r) => (c :: sign ++ ds, r)
              end = (exp, r3 ++ rest) /\ c :: a = exp ++ r3) as Hbody.
    { intros sign a1 H Esign.
      destruct (span_digits a1) as [ds r] eqn:E.
      destruct (span_digits_ext a1 rest ds r E Hspan) as [-> Ea].
      destruct ds as [|d ds]; inversion H; subst; split; try reflexivity.
      cbn [app]. now rewrite <- !app_assoc. }
    destruct a as [|g a'].
    + cbn in Ha. inversion Ha; subst. cbn [app].
      destruct rest as [|g r]; [now split|].
      rewrite Hsign, Hspan. now split.
    + cbn [app]. destruct (is_char 43 g || is_char 45 g).
      * exact (Hbody [g] a' Ha eq_refl).
      * exact (Hbody [] (g :: a') Ha eq_refl).
Qed.

Lemma scan_number_float (s : string) (rest : list ascii) :
  is_float_lexeme s = true -> after_value rest = true ->
  scan_number (lit s ++ rest) = Some (VFloat (float_of_literal s), rest).
Proof.
  unfold is_float_lexeme. intros H Hq.
  destruct (scan_int_part (lit s)) as [[ip r1]|] eqn:Ei; [|discriminate H].
  destruct (scan_frac r1) as [frac r2] eqn:Ef.
  destruct (scan_exp r2) as [exp r3] eqn:Ee.
  apply andb_true_iff in H as [H3 Hfloat]. destruct r3; [|discriminate H3].
  destruct (scan_int_part_ext _ rest _ _ Ei
              (proj1 (after_value_no_number rest Hq))) as [Hi' Es].
  destruct (scan_frac_ext _ rest _ _ Ef Hq) as [Hf' Er1].
  destruct (scan_exp_ext _ rest _ _ Ee Hq) as [He' Er2].
  unfold scan_number. rewrite Hi', Hf', He'. cbn [app].
  assert (string_of_list_ascii (ip ++ frac ++ exp) = s) as ->.
  { rewrite <- (string_of_list_ascii_of_string s). f_equal.
    fold (lit s). rewrite Es, Er1, Er2. now rewrite app_nil_r. }
  destruct frac; [destruct exp; [discriminate Hfloat|]|]; reflexivity.
Qed.

Lemma float_lexeme_head (s : string) :
  is_float_lexeme s = true ->
  exists c r, lit s = c :: r /\ (Text.is_digit c || is_char 45 c) = true.
Proof.
  unfold is_float_lexeme, scan_int_part. intros H.
  destruct (lit s) as [|c r]; [discriminate H|]. exists c, r. split; [reflexivity|].
  destruct (is_char 45 c); [apply orb_true_r|]. rewrite orb_false_r.
  destruct (is_char 48 c) eqn:E0.
  - destruct c as [[] [] [] [] [] [] [] []]; try discriminate E0. reflexivity.
  - destruct (Text.is_digit c); [reflexivity | discriminate H].
Qed.


Lemma dict_set_fresh (k : PyKey) (v : PyVal) (d' acc : list (PyKey * PyVal)) :
  distinct_keys (List.map fst (acc ++ (k, v) :: d')) = true ->
  dict_set acc k v = acc ++ [(k, v)].
Proof.
  induction acc as [|[k0 v0] acc IH]; intros H; [reflexivity|].
  cbn in H. apply andb_true_iff in H as [Hk Hrest].
  rewrite map_app, existsb_app in Hk. cbn in Hk.
  apply negb_true_iff, orb_false_iff in Hk as [_ Hk].
  apply orb_false_iff in Hk as [Hk _].
  cbn [dict_set app]. rewrite Hk. now rewrite (IH Hrest).
Qed.

Lemma dict_of_pairs_distinct (d : list (PyKey * PyVal)) :
  distinct_keys (List.map fst d) = true -> dict_of_pairs d = d.
Proof.
  unfold dict_of_pairs.
  assert (forall acc, distinct_keys (List.map fst (acc ++ d)) = true ->
            fold_left (fun d kv => dict_set d (fst kv) (snd kv)) d acc = acc ++ d)
    as H.
  { induction d as [|[k v] d IH]; intros acc Hacc.
    - now rewrite app_nil_r.
    - cbn [fold_left fst snd]. rewrite (dict_set_fresh k v d acc Hacc).
      rewrite IH; rewrite <- app_assoc; [reflexivity | exact Hacc]. }
  intros Hd. now apply (H []).
Qed.

Lemma str_of_Z_head (n : Z) :
  exists c r, lit (Text.str_of_Z n) = c :: r
              /\ (Text.is_digit c || is_char 45 c) = true.
Proof.
  destruct n as [|p|p].
  - now exists (ascii_of_N 48), [].
  - destruct (to_uint_head p) as (d & ds & E & Hd & _).
    exists d, ds. unfold Text.str_of_Z. cbn [Z.to_int NilZero.string_of_int].
    now rewrite E, Hd.
  - eexists _, _. unfold Text.str_of_Z. cbn [Z.to_int NilZero.string_of_int].
    split; reflexivity.
Qed.

Lemma number_start (c : ascii) :
  (Text.is_digit c || is_char 45 c) = true ->
  starts_value c = true
  /\ is_char 34 c = false /\ is_char 123 c = false /\ is_char 91 c = false
  /\ forall s, strip_prefix (lit "null") (c :: s) = None
             /\ strip_prefix (lit "true") (c :: s) = None
             /\ strip_prefix (lit "false") (c :: s) = None.
Proof.
  destruct c as [[] [] [] [] [] [] [] []]; vm_compute; intros H;
    try discriminate H; now repeat split.
Qed.

(** From here on [floats] tells whether floats are among the values
    considered; when they are, each is written as a float text that reads
    back as the float itself. *)
Variable floats : bool.
Hypothesis Hfloats :
  floats = true ->
  forall x : pyfloat,
    float_json x <> "NaN" ->
    is_float_text (float_json x) = true /\ float_of_literal (float_json x) = x.

Lemma native_float (x : pyfloat) :
  native floats (VFloat x) = true ->
  float_of_literal (float_json x) = x
  /\ (is_float_lexeme (float_json x) = true
      \/ float_json x = "Infinity" \/ float_json x = "-Infinity").
Proof.
  cbn [native]. intros H. apply andb_true_iff in H as [Hf Hnan].
  apply negb_true_iff, String.eqb_neq in Hnan.
  destruct (Hfloats Hf x Hnan) as [Htext Hback]. split; [exact Hback|].
  unfold is_float_text in Htext.
  apply orb_true_iff in Htext as [Htext | E]; [|right; right; now apply String.eqb_eq].
  apply orb_true_iff in Htext as [Htext | E]; [|right; left; now apply String.eqb_eq].
  apply orb_true_iff in Htext as [Htext | E]; [now left|].
  apply String.eqb_eq in E. contradiction.
Qed.

Lemma dumps_head (level : nat) (v : PyVal) :
  native floats v = true ->
  exists c r, dumps_at level v = c :: r /\ starts_value c = true
              /\ Ascii.eqb (ascii_of_N 239) c = false.
Proof.
  destruct v as [| [] | n | x | s | [|i items] | [|e entries]]; intros H;
    try (now eexists _, _; repeat split; reflexivity).
  - destruct (str_of_Z_head n) as (c & r & E & Hc).
    exists c, r. cbn [dumps_at]. split; [exact E|].
    split; [now apply number_start|].
    destruct c as [[] [] [] [] [] [] [] []]; try reflexivity; discriminate Hc.
  - destruct (native_float x H) as (_ & [Hlex | [E | E]]).
    + destruct (float_lexeme_head _ Hlex) as (c & r & E & Hc).
      exists c, r. cbn [dumps_at]. split; [exact E|].
      split; [now apply number_start|].
      destruct c as [[] [] [] [] [] [] [] []]; try reflexivity; discriminate Hc.
    + cbn [dumps_at]. rewrite E. now eexists _, _; repeat split; reflexivity.
    + cbn [dumps_at]. rewrite E. now eexists _, _; repeat split; reflexivity.
Qed.


Lemma starts_value_ws (c : ascii) : starts_value c = true -> is_json_ws c = false.
Proof.
  unfold starts_value. intros H.
  apply andb_true_iff in H as [H _]. apply andb_true_iff in H as [H _].
  now apply negb_true_iff in H.
Qed.

Lemma starts_value_not_closing (c : ascii) :
  starts_value c = true -> is_char 93 c = false /\ is_char 125 c = false.
Proof.
  unfold starts_value. intros H.
  apply andb_true_iff in H as [H H2]. apply andb_true_iff in H as [_ H1].
  now apply negb_true_iff in H1, H2.
Qed.

Lemma skip_ws_dumps (level : nat) (v : PyVal) (s : list ascii) :
  native floats v = true -> skip_ws (dumps_at level v ++ s) = dumps_at level v ++ s.
Proof.
  intros H. destruct (dumps_head level v H) as (c & r & E & Hc & _).
  rewrite E. apply skip_ws_stop, starts_value_ws, Hc.
Qed.

Lemma join_chars_cons (sep a : list ascii) (l : list (list ascii)) :
  exists t, join_chars sep (a :: l) = a ++ t.
Proof.
  destruct l as [|b l]; cbn [join_chars].
  - exists []. now rewrite app_nil_r.
  - eauto.
Qed.

Lemma parse_elems_dumps (level : nat) (items : list PyVal) :
  Forall reads_back items ->
  forallb (native floats) items = true ->
  items <> [] ->
  forall fuel acc rest,
    parse_elems fuel
      (join_chars (lit "," ++ newline_indent (S level))
         (List.map (dumps_at (S level)) items)
       ++ newline_indent level ++ lit "]" ++ rest) acc <> PFuel ->
    parse_elems fuel
      (join_chars (lit "," ++ newline_indent (S level))
         (List.map (dumps_at (S level)) items)
       ++ newline_indent level ++ lit "]" ++ rest) acc
    = POk (VList (rev acc ++ items)) rest.
Proof.
  induction items as [|x xs IH]; intros Hback Hnat Hne fuel acc rest Hfuel;
    [congruence|].
  inversion Hback as [|? ? Hx Hxs]; subst.
  cbn [forallb] in Hnat. apply andb_true_iff in Hnat as [Hnx Hnxs].
  destruct fuel as [|fuel]; [now contradiction Hfuel|].
  destruct xs as [|y ys].
  - cbn [List.map join_chars] in Hfuel |- *.
    cbn [parse_elems] in Hfuel |- *.
    assert (after_value (newline_indent level ++ lit "]" ++ rest) = true) as Hav
      by reflexivity.
    assert (parse_value fuel
              (dumps_at (S level) x ++ newline_indent level ++ lit "]" ++ rest)
            <> PFuel) as Hin
      by (intros E; now rewrite E in Hfuel).
    rewrite (Hx (S level) fuel _ Hav Hin).
    rewrite skip_ws_indent. reflexivity.
  - cbn [List.map join_chars] in Hfuel |- *.
    change (join_chars ?sep (?a :: ?b :: ?l)) with (a ++ sep ++ join_chars sep (b :: l))
      in Hfuel |- *.
    rewrite <- !app_assoc in Hfuel |- *.
    cbn [parse_elems] in Hfuel |- *.
    match type of Hfuel with
    | context [parse_value fuel (_ ++ ?r)] =>
        assert (after_value r = true) as Hav by reflexivity;
        assert (parse_value fuel (dumps_at (S level) x ++ r) <> PFuel) as Hin
          by (intros E; now rewrite E in Hfuel);
        rewrite (Hx (S level) fuel r Hav Hin) in Hfuel |- *
    end.
    cbn [lit list_ascii_of_string app] in Hfuel |- *.
    rewrite skip_ws_stop in Hfuel |- * by reflexivity.
    change (is_char 93 ",") with false in Hfuel |- *.
    change (is_char 44 ",") with true in Hfuel |- *. cbv iota in Hfuel |- *.
    rewrite skip_ws_indent in Hfuel |- *.
    destruct (join_chars_cons (","%char :: newline_indent (S level))
                (dumps_at (S level) y) (List.map (dumps_at (S level)) ys))
      as [t Et].
    cbn [forallb] in Hnxs. apply andb_true_iff in Hnxs as [Hny Hnys].
    assert (forall tail,
              skip_ws (join_chars (","%char :: newline_indent (S level))
                         (dumps_at (S level) y :: List.map (dumps_at (S level)) ys)
                       ++ tail)
              = join_chars (","%char :: newline_indent (S level))
                  (dumps_at (S level) y :: List.map (dumps_at (S level)) ys)
                ++ tail) as Hskip.
    { intros tail. rewrite Et, <- app_assoc. now apply skip_ws_dumps. }
    rewrite Hskip in Hfuel |- *.
    specialize (IH Hxs ltac:(cbn [forallb]; now rewrite Hny, Hnys)
                  ltac:(congruence) fuel (x :: acc) rest).
    cbn [List.map lit list_ascii_of_string app] in IH.
    rewrite (IH Hfuel). cbn [rev]. now rewrite <- app_assoc.
Qed.


Lemma member_chars_shape (level : nat) (t : string) (v : PyVal) (more : list ascii) :
  member_chars level (KStr t, v) ++ more
  = dquote :: (flat_map escape_char (lit t)
                 ++ dquote :: lit ": " ++ dumps_at (S level) v ++ more).
Proof.
  unfold member_chars, encode_string. cbn [fst snd key_text].
  rewrite <- !app_assoc. cbn [app]. now rewrite <- !app_assoc.
Qed.

Lemma parse_member_step (fuel level : nat) (t : string) (v : PyVal)
  (acc : list (PyKey * PyVal)) (r1 : list ascii) :
  reads_back v -> native floats v = true -> after_value r1 = true ->
  parse_members (S fuel)
    (flat_map escape_char (lit t)
       ++ dquote :: lit ": " ++ dumps_at (S level) v ++ r1) acc <> PFuel ->
  parse_members (S fuel)
    (flat_map escape_char (lit t)
       ++ dquote :: lit ": " ++ dumps_at (S level) v ++ r1) acc
  = match skip_ws r1 with
    | c2 :: r3 =>
        if is_char 125 c2 then
          POk (VDict (dict_of_pairs (rev ((KStr t, v) :: acc)))) r3
        else if is_char 44 c2 then
          match skip_ws r3 with
          | c3 :: r4 =>
              if is_char 34 c3 then parse_members fuel r4 ((KStr t, v) :: acc)
              else PErr "Expecting property name enclosed in double quotes"
          | [] => PErr "Expecting property name enclosed in double quotes"
          end
        else PErr "Expecting ',' delimiter"
    | [] => PErr "Expecting ',' delimiter"
    end.
Proof.
  intros Hv Hnv Hav Hfuel.
  cbn [parse_members] in Hfuel |- *.
  rewrite scan_string_escaped in Hfuel |- *.
  change (lit ": " ++ ?x) with (":"%char :: " "%char :: x) in Hfuel |- *.
  rewrite skip_ws_stop in Hfuel |- * by reflexivity.
  change (is_char 58 ":") with true in Hfuel |- *. cbv iota in Hfuel |- *.
  change (skip_ws (" "%char :: ?x)) with (skip_ws x) in Hfuel |- *.
  rewrite (skip_ws_dumps (S level) v _ Hnv) in Hfuel |- *.
  assert (parse_value fuel (dumps_at (S level) v ++ r1) <> PFuel) as Hin
    by (intros E; now rewrite E in Hfuel).
  rewrite (Hv (S level) fuel r1 Hav Hin).
  unfold lit. now rewrite string_of_list_ascii_of_string.
Qed.

Lemma parse_members_dumps (level : nat) (entries : list (PyKey * PyVal)) :
  Forall (fun kv => reads_back (snd kv)) entries ->
  forallb (native_entry floats) entries = true ->
  entries <> [] ->
  forall fuel acc rest s,
    dquote :: s
    = join_chars (lit "," ++ newline_indent (S level))
        (List.map (member_chars level) entries)
      ++ newline_indent level ++ lit "}" ++ rest ->
    parse_members fuel s acc <> PFuel ->
    parse_members fuel s acc = POk (VDict (dict_of_pairs (rev acc ++ entries))) rest.
Proof.
  induction entries as [|[k v] es IH];
    intros Hback Hnat Hne fuel acc rest s Hs Hfuel; [congruence|].
  inversion Hback as [|? ? Hv Hes]; subst. cbn [snd] in Hv.
  cbn [forallb] in Hnat. apply andb_true_iff in Hnat as [Hkv Hnes].
  unfold native_entry in Hkv. cbn [fst snd] in Hkv.
  apply andb_true_iff in Hkv as [Hk Hnv].
  destruct k as [t|n]; [|discriminate Hk].
  destruct fuel as [|fuel]; [now contradiction Hfuel|].
  destruct es as [|e es].
  - cbn [List.map join_chars] in Hs.
    rewrite member_chars_shape in Hs.
    apply (f_equal (@tl ascii)) in Hs. cbn [tl] in Hs. subst s.
    rewrite parse_member_step in Hfuel |- *; try assumption; try reflexivity.
    rewrite skip_ws_indent. cbn [rev]. reflexivity.
  - cbn [List.map] in Hs.
    change (join_chars ?sep (?a :: ?b :: ?l)) with (a ++ sep ++ join_chars sep (b :: l))
      in Hs.
    rewrite <- !app_assoc in Hs.
    rewrite member_chars_shape in Hs.
    apply (f_equal (@tl ascii)) in Hs. cbn [tl] in Hs. subst s.
    rewrite parse_member_step in Hfuel |- *; try assumption; try reflexivity.
    change (lit "," ++ ?x) with (","%char :: x) in Hfuel |- *.
    rewrite skip_ws_stop in Hfuel |- * by reflexivity.
    change (is_char 125 ",") with false in Hfuel |- *.
    change (is_char 44 ",") with true in Hfuel |- *. cbv iota in Hfuel |- *.
    rewrite skip_ws_indent in Hfuel |- *.
    destruct (join_chars_cons (lit "," ++ newline_indent (S level))
                (member_chars level e) (List.map (member_chars level) es))
      as [t' Et].
    assert (exists s2,
              join_chars (lit "," ++ newline_indent (S level))
                (member_chars level e :: List.map (member_chars level) es)
              ++ newline_indent level ++ lit "}" ++ rest = dquote :: s2) as [s2 Es2].
    { rewrite Et. destruct e as [[t2|n2] v2].
      - rewrite <- app_assoc, member_chars_shape. eauto.
      - cbn [forallb] in Hnes. discriminate Hnes. }
    rewrite Es2 in Hfuel |- *.
    rewrite skip_ws_stop in Hfuel |- * by reflexivity.
    change (is_char 34 dquote) with true in Hfuel |- *. cbv iota in Hfuel |- *.
    specialize (IH Hes Hnes ltac:(congruence) fuel ((KStr t, v) :: acc) rest s2).
    rewrite (IH (eq_sym Es2) Hfuel). cbn [rev]. now rewrite <- app_assoc.
Qed.

(** Reading back what [json.dumps] wrote. *)
Lemma parse_value_atom (fuel : nat) (c : ascii) (s : list ascii) :
  is_char 34 c = false -> is_char 123 c = false -> is_char 91 c = false ->
  parse_value (S fuel) (c :: s) = scan_atom (c :: s).
Proof. intros H1 H2 H3. cbn [parse_value]. now rewrite H1, H2, H3. Qed.

Lemma Forall_guarded {A} (g : A -> bool) (h : A -> bool) (Q : A -> Prop)
  (l : list A) :
  (forall a, g a = true -> h a = true) ->
  Forall (fun a => h a = true -> Q a) l ->
  forallb g l = true -> Forall Q l.
Proof.
  intros Hgh HF Hg. induction HF as [|a l Ha _ IH]; [constructor|].
  cbn [forallb] in Hg. apply andb_true_iff in Hg as [Hga Hgl].
  constructor; auto.
Qed.

Lemma reads_back_all (v : PyVal) : native floats v = true -> reads_back v.
Proof.
  induction v as [| b | n | x | t | items IH | entries IH] using PyVal_nested_ind;
    intros Hnat level fuel rest Hav Hfuel;
    (destruct fuel as [|fuel]; [now contradiction Hfuel|]).
  - reflexivity.
  - now destruct b.
  - cbn [dumps_at] in Hfuel |- *.
    destruct (str_of_Z_head n) as (c & r & E & Hc).
    destruct (number_start c Hc) as (_ & H1 & H2 & H3 & Hp).
    pose proof (scan_number_int n rest Hav) as Hnum.
    rewrite E in Hnum |- *. cbn [app] in Hnum |- *.
    rewrite (parse_value_atom fuel c _ H1 H2 H3). unfold scan_atom.
    destruct (Hp (r ++ rest)) as (-> & -> & ->). now rewrite Hnum.
  - cbn [dumps_at] in Hfuel |- *.
    destruct (native_float x Hnat) as (Hback & [Hlex | [E | E]]).
    + destruct (float_lexeme_head _ Hlex) as (c & r & E & Hc).
      destruct (number_start c Hc) as (_ & H1 & H2 & H3 & Hp).
      pose proof (scan_number_float _ rest Hlex Hav) as Hnum.
      rewrite E in Hnum |- *. cbn [app] in Hnum |- *.
      rewrite (parse_value_atom fuel c _ H1 H2 H3). unfold scan_atom.
      destruct (Hp (r ++ rest)) as (-> & -> & ->). now rewrite Hnum, Hback.
    + rewrite E in Hback |- *. rewrite <- Hback. reflexivity.
    + rewrite E in Hback |- *. rewrite <- Hback. reflexivity.
  - cbn [dumps_at]. unfold encode_string. cbn [app parse_value].
    change (is_char 34 dquote) with true. cbv iota.
    rewrite <- app_assoc. cbn [app]. rewrite scan_string_escaped.
    unfold lit. now rewrite string_of_list_ascii_of_string.
  - destruct items as [|x xs]; [reflexivity|].
    cbn [native] in Hnat.
    change (dumps_at level (VList (x :: xs)))
      with (lit "[" ++ newline_indent (S level)
              ++ join_chars (lit "," ++ newline_indent (S level))
                   (List.map (dumps_at (S level)) (x :: xs))
              ++ newline_indent level ++ lit "]") in Hfuel |- *.
    rewrite <- !app_assoc in Hfuel |- *.
    change (lit "[" ++ ?y) with ("["%char :: y) in Hfuel |- *.
    cbn [parse_value] in Hfuel |- *.
    change (is_char 34 "[") with false in Hfuel |- *.
    change (is_char 123 "[") with false in Hfuel |- *.
    change (is_char 91 "[") with true in Hfuel |- *. cbv iota in Hfuel |- *.
    rewrite skip_ws_indent in Hfuel |- *.
    destruct (join_chars_cons (lit "," ++ newline_indent (S level))
                (dumps_at (S level) x) (List.map (dumps_at (S level)) xs))
      as [t Et].
    pose proof Hnat as Hnat'. cbn [forallb] in Hnat'.
    apply andb_true_iff in Hnat' as [Hnx _].
    destruct (dumps_head (S level) x Hnx) as (c & r & Ec & Hc & _).
    assert (exists s2,
              join_chars (lit "," ++ newline_indent (S level))
                (List.map (dumps_at (S level)) (x :: xs))
              ++ newline_indent level ++ lit "]" ++ rest = c :: s2) as [s2 Es2].
    { cbn [List.map]. rewrite Et, Ec. cbn [app]. eauto. }
    rewrite Es2 in Hfuel |- *.
    rewrite skip_ws_stop in Hfuel |- * by now apply starts_value_ws.
    destruct (starts_value_not_closing c Hc) as [Hc93 _].
    rewrite Hc93 in Hfuel |- *. rewrite <- Es2 in Hfuel |- *.
    apply (parse_elems_dumps level (x :: xs)
             (Forall_guarded (native floats) (native floats) _ _ (fun _ H => H) IH Hnat)
             Hnat ltac:(congruence) fuel []).
    exact Hfuel.
  - destruct entries as [|e es]; [reflexivity|].
    cbn [native] in Hnat. apply andb_true_iff in Hnat as [Hnat Hdistinct].
    change (dumps_at level (VDict (e :: es)))
      with (lit "{" ++ newline_indent (S level)
              ++ join_chars (lit "," ++ newline_indent (S level))
                   (List.map (member_chars level) (e :: es))
              ++ newline_indent level ++ lit "}") in Hfuel |- *.
    rewrite <- !app_assoc in Hfuel |- *.
    change (lit "{" ++ ?y) with ("{"%char :: y) in Hfuel |- *.
    cbn [parse_value] in Hfuel |- *.
    change (is_char 34 "{") with false in Hfuel |- *.
    change (is_char 123 "{") with true in Hfuel |- *. cbv iota in Hfuel |- *.
    rewrite skip_ws_indent in Hfuel |- *.
    destruct (join_chars_cons (lit "," ++ newline_indent (S level))
                (member_chars level e) (List.map (member_chars level) es))
      as [t Et].
    assert (exists s2,
              join_chars (lit "," ++ newline_indent (S level))
                (List.map (member_chars level) (e :: es))
              ++ newline_indent level ++ lit "}" ++ rest = dquote :: s2) as [s2 Es2].
    { cbn [List.map]. rewrite Et. destruct e as [[t2|n2] v2].
      - rewrite <- app_assoc, member_chars_shape. eauto.
      - cbn [forallb] in Hnat. discriminate Hnat. }
    rewrite Es2 in Hfuel |- *.
    rewrite skip_ws_stop in Hfuel |- * by reflexivity.
    change (is_char 125 dquote) with false in Hfuel |- *.
    change (is_char 34 dquote) with true in Hfuel |- *. cbv iota in Hfuel |- *.
    rewrite (parse_members_dumps level (e :: es)
               (Forall_guarded (native_entry floats) (fun kv => native floats (snd kv))
                  (fun kv => reads_back (snd kv)) _
                  (fun kv H => proj2 (proj1 (andb_true_iff _ _) H)) IH Hnat)
               Hnat ltac:(congruence) fuel [] rest s2 (eq_sym Es2) Hfuel).
    cbn [rev app]. now rewrite (dict_of_pairs_distinct _ Hdistinct).
Qed.


(** The decoder never runs out of budget: every call consumes input. *)

Lemma skip_ws_length (s : list ascii) : (length (skip_ws s) <= length s)%nat.
Proof.
  induction s as [|c r IH]; [reflexivity|]. cbn [skip_ws].
  destruct (is_json_ws c); cbn [length]; lia.
Qed.

Lemma consumes_err {A} (m : string) (s : list ascii) : consumes (@PErr A m) s.
Proof. split; [discriminate | intros ? ? E; discriminate E]. Qed.

Lemma consumes_ok {A} (a : A) (r s : list ascii) :
  (length r < length s)%nat -> consumes (POk a r) s.
Proof. intros H. split; [discriminate | intros ? ? E; now inversion E; subst]. Qed.

Lemma consumes_prepend (pre : list ascii) (res : PRes (list ascii))
  (s s' : list ascii) :
  consumes res s' -> (length s' <= length s)%nat -> consumes (prepend pre res) s.
Proof.
  intros [Hf Hr] Hlen. destruct res as [cs r | m |]; cbn [prepend].
  - apply consumes_ok. specialize (Hr cs r eq_refl). lia.
  - apply consumes_err.
  - now contradiction Hf.
Qed.

Lemma scan_string_consumes (n : nat) (s : list ascii) :
  (length s < n)%nat -> consumes (scan_string s) s.
Proof.
  revert s. induction n as [|n IH]; intros s Hn; [lia|].
  destruct s as [|c r]; cbn [scan_string]; [apply consumes_err|].
  cbn [length] in Hn.
  repeat match goal with
         | |- consumes (PErr _) _ => apply consumes_err
         | |- consumes (POk _ _) _ => apply consumes_ok; cbn [length]; lia
         | |- consumes (prepend _ (scan_string ?x)) _ =>
             apply (consumes_prepend _ _ _ x);
             [apply IH; cbn [length] in Hn |- *; lia | cbn [length]; lia]
         | |- consumes (if ?b then _ else _) _ => destruct b
         | |- consumes (match hex4 ?a ?b ?c ?d with _ => _ end) _ =>
             destruct (hex4 a b c d)
         | |- consumes (match simple_escape ?e with _ => _ end) _ =>
             destruct (simple_escape e)
         | |- consumes (match ?l with [] => _ | _ :: _ => _ end) _ =>
             destruct l; cbn [length] in Hn
         end.
Qed.

Lemma span_digits_length (s ds rest : list ascii) :
  span_digits s = (ds, rest) -> (length ds + length rest = length s)%nat.
Proof.
  revert ds rest. induction s as [|c r IH]; intros ds rest H; cbn [span_digits] in H.
  - now inversion H.
  - destruct (Text.is_digit c).
    + destruct (span_digits r) as [ds' rest'] eqn:E. inversion H; subst.
      specialize (IH _ _ eq_refl). cbn [length]. lia.
    + inversion H; subst. reflexivity.
Qed.

Lemma strip_prefix_length (p s r : list ascii) :
  strip_prefix p s = Some r -> (length s = length p + length r)%nat.
Proof.
  revert s. induction p as [|a p IH]; intros s H; cbn [strip_prefix] in H.
  - now inversion H.
  - destruct s as [|b s]; [discriminate H|].
    destruct (Ascii.eqb a b); [|discriminate H].
    specialize (IH _ H). cbn [length]. lia.
Qed.

Lemma scan_int_part_length (s lexeme rest : list ascii) :
  scan_int_part s = Some (lexeme, rest) -> (length rest < length s)%nat.
Proof.
  unfold scan_int_part. intros H.
  assert (forall sign s1, (length s1 <= length s)%nat ->
            match s1 with
            | d :: r =>
                if is_char 48 d then Some (sign ++ [d], r)
                else if Text.is_digit d then
                  let (ds, rest) := span_digits r in Some (sign ++ d :: ds, rest)
                else None
            | [] => None
            end = Some (lexeme, rest) -> (length rest < length s)%nat) as Haux.
  { intros sign s1 Hlen E. destruct s1 as [|d r]; [discriminate E|].
    cbn [length] in Hlen.
    destruct (is_char 48 d); [inversion E; subst; lia|].
    destruct (Text.is_digit d); [|discriminate E].
    destruct (span_digits r) as [ds rest'] eqn:Es. inversion E; subst.
    apply span_digits_length in Es. lia. }
  destruct s as [|c r]; [discriminate H|].
  destruct (is_char 45 c);
    [apply (Haux [c] r) | apply (Haux [] (c :: r))];
    solve [exact H | cbn [length]; lia].
Qed.

Lemma scan_frac_length (s frac rest : list ascii) :
  scan_frac s = (frac, rest) -> (length rest <= length s)%nat.
Proof.
  unfold scan_frac. intros H. destruct s as [|c r]; [now inversion H|].
  destruct (is_char 46 c); [|now inversion H].
  destruct (span_digits r) as [ds rest'] eqn:Es.
  apply span_digits_length in Es.
  destruct ds; inversion H; subst; cbn [length] in *; lia.
Qed.

Lemma scan_exp_length (s exp rest : list ascii) :
  scan_exp s = (exp, rest) -> (length rest <= length s)%nat.
Proof.
  unfold scan_exp. intros H. destruct s as [|c r]; [now inversion H|].
  destruct (is_char 101 c || is_char 69 c); [|now inversion H].
  assert (exists sign r1,
            match r with
            | g :: r' => if is_char 43 g || is_char 45 g then ([g], r') else ([], r)
            | [] => ([], r)
            end = (sign, r1) /\ (length r1 <= length r)%nat) as (sign & r1 & E & Hl).
  { destruct r as [|g r']; [now eexists _, _|].
    destruct (is_char 43 g || is_char 45 g); eexists _, _; split;
      try reflexivity; cbn [length]; lia. }
  rewrite E in H.
  destruct (span_digits r1) as [ds rest'] eqn:Es.
  apply span_digits_length in Es.
  destruct ds; inversion H; subst; cbn [length] in *; lia.
Qed.

Lemma scan_number_length (s : list ascii) (v : PyVal) (rest : list ascii) :
  scan_number s = Some (v, rest) -> (length rest < length s)%nat.
Proof.
  unfold scan_number. intros H.
  destruct (scan_int_part s) as [[int_part r1]|] eqn:E1; [|discriminate H].
  destruct (scan_frac r1) as [frac r2] eqn:E2.
  destruct (scan_exp r2) as [exp r3] eqn:E3.
  apply scan_int_part_length in E1. apply scan_frac_length in E2.
  apply scan_exp_length in E3.
  destruct frac, exp; inversion H; subst; lia.
Qed.

Lemma scan_atom_consumes (s : list ascii) : consumes (scan_atom s) s.
Proof.
  unfold scan_atom.
  repeat match goal with
         | |- consumes (PErr _) _ => apply consumes_err
         | |- consumes (match strip_prefix ?p s with _ => _ end) _ =>
             let E := fresh "E" in
             destruct (strip_prefix p s) eqn:E;
             [apply strip_prefix_length in E; cbn [length lit list_ascii_of_string] in E;
              apply consumes_ok; lia|]
         | |- consumes (match scan_number s with _ => _ end) _ =>
             let E := fresh "E" in
             destruct (scan_number s) as [[? ?]|] eqn:E;
             [apply scan_number_length in E; apply consumes_ok; lia|]
         end.
Qed.


Lemma skip_ws_cons_length (s r : list ascii) (c : ascii) :
  skip_ws s = c :: r -> (S (length r) <= length s)%nat.
Proof.
  intros H. pose proof (skip_ws_length s) as Hl. rewrite H in Hl. exact Hl.
Qed.

Lemma parse_consumes (fuel : nat) :
  (forall s, (2 * length s + 1 <= fuel)%nat -> consumes (parse_value fuel s) s)
  /\ (forall s acc, (2 * length s + 2 <= fuel)%nat ->
        consumes (parse_elems fuel s acc) s)
  /\ (forall s acc, (2 * length s + 1 <= fuel)%nat ->
        consumes (parse_members fuel s acc) s).
Proof.
  induction fuel as [|fuel (IHv & IHe & IHm)].
  { repeat split; intros; lia. }
  split; [|split].
  - intros s Hf. cbn [parse_value].
    destruct s as [|c r]; [apply consumes_err|]. cbn [length] in Hf.
    destruct (is_char 34 c).
    { pose proof (scan_string_consumes (S (length r)) r ltac:(lia)) as [Hs1 Hs2].
      destruct (scan_string r) as [cs rest | m |].
      - apply consumes_ok. specialize (Hs2 _ _ eq_refl). cbn [length]. lia.
      - apply consumes_err.
      - now contradiction Hs1. }
    destruct (is_char 123 c).
    { destruct (skip_ws r) as [|c1 r1] eqn:Er; [apply consumes_err|].
      apply skip_ws_cons_length in Er.
      destruct (is_char 125 c1); [apply consumes_ok; cbn [length]; lia|].
      destruct (is_char 34 c1); [|apply consumes_err].
      destruct (IHm r1 [] ltac:(lia)) as [H1 H2].
      split; [exact H1|]. intros a r' E. specialize (H2 _ _ E). cbn [length]. lia. }
    destruct (is_char 91 c).
    { destruct (skip_ws r) as [|c1 r1] eqn:Er; [apply consumes_err|].
      apply skip_ws_cons_length in Er.
      destruct (is_char 93 c1); [apply consumes_ok; cbn [length]; lia|].
      destruct (IHe (c1 :: r1) [] ltac:(cbn [length]; lia)) as [H1 H2].
      split; [exact H1|]. intros a r' E. specialize (H2 _ _ E).
      cbn [length] in *. lia. }
    apply scan_atom_consumes.
  - intros s acc Hf. cbn [parse_elems].
    destruct (IHv s ltac:(lia)) as [H1 H2].
    destruct (parse_value fuel s) as [v r | m |];
      [|apply consumes_err|now contradiction H1].
    specialize (H2 _ _ eq_refl).
    destruct (skip_ws r) as [|c r1] eqn:Er; [apply consumes_err|].
    apply skip_ws_cons_length in Er.
    destruct (is_char 93 c); [apply consumes_ok; lia|].
    destruct (is_char 44 c); [|apply consumes_err].
    pose proof (skip_ws_length r1) as Hl.
    destruct (IHe (skip_ws r1) (v :: acc) ltac:(lia)) as [H3 H4].
    split; [exact H3|]. intros a r' E. specialize (H4 _ _ E). lia.
  - intros s acc Hf. cbn [parse_members].
    pose proof (scan_string_consumes (S (length s)) s ltac:(lia)) as [Hs1 Hs2].
    destruct (scan_string s) as [k r | m |];
      [|apply consumes_err|now contradiction Hs1].
    specialize (Hs2 _ _ eq_refl).
    destruct (skip_ws r) as [|c r1] eqn:Er; [apply consumes_err|].
    apply skip_ws_cons_length in Er.
    destruct (is_char 58 c); [|apply consumes_err].
    pose proof (skip_ws_length r1) as Hl.
    destruct (IHv (skip_ws r1) ltac:(lia)) as [H1 H2].
    destruct (parse_value fuel (skip_ws r1)) as [v r2 | m |];
      [|apply consumes_err|now contradiction H1].
    specialize (H2 _ _ eq_refl).
    destruct (skip_ws r2) as [|c2 r3] eqn:Er2; [apply consumes_err|].
    apply skip_ws_cons_length in Er2.
    destruct (is_char 125 c2); [apply consumes_ok; lia|].
    destruct (is_char 44 c2); [|apply consumes_err].
    destruct (skip_ws r3) as [|c3 r4] eqn:Er3; [apply consumes_err|].
    apply skip_ws_cons_length in Er3.
    destruct (is_char 34 c3); [|apply consumes_err].
    destruct (IHm r4 ((KStr (string_of_list_ascii k), v) :: acc) ltac:(lia))
      as [H3 H4].
    split; [exact H3|]. intros a r' E. specialize (H4 _ _ E). lia.
Qed.


(** Reading back a document written by [json.dumps]. *)
Lemma json_loads_dumps (v : PyVal) :
  native floats v = true -> json_loads (json_dumps v) = Return v.
Proof.
  intros Hnat. unfold json_loads, json_dumps, lit.
  rewrite list_ascii_of_string_of_list_ascii.
  destruct (dumps_head 0 v Hnat) as (c & r & E & Hc & Hbom).
  assert (strip_prefix [ascii_of_N 239; ascii_of_N 187; ascii_of_N 191]
            (dumps_at 0 v) = None) as ->.
  { rewrite E. cbn [strip_prefix]. now rewrite Hbom. }
  assert (skip_ws (dumps_at 0 v) = dumps_at 0 v) as ->
    by (rewrite E; apply skip_ws_stop, starts_value_ws, Hc).
  pose proof (reads_back_all v Hnat 0%nat (2 * length (dumps_at 0 v) + 2)%nat []
                eq_refl) as Hback.
  rewrite app_nil_r in Hback. rewrite Hback; [reflexivity|].
  apply (proj1 (parse_consumes _)). lia.
Qed.

End JsonFacts.

(** Reading back a document written by [json.dumps]: without floats
    whatever the float library, with floats given what is used of them. *)
Lemma json_loads_dumps_plain (v : PyVal) :
  native false v = true -> json_loads (json_dumps v) = Return v.
Proof. apply (json_loads_dumps false). intros H. discriminate H. Qed.

Lemma json_loads_dumps_native {FLw : FloatLaws} (v : PyVal) :
  json_native v = true -> json_loads (json_dumps v) = Return v.
Proof.
  apply (json_loads_dumps true). intros _ x Hx.
  split; [apply float_json_text | now apply float_read_back].
Qed.

(* ===================================================================== *)
(** ** The decoder and the grammar *)
(* ===================================================================== *)

Section Grammar.





(** *** Strings *)






(** *** Numbers *)

















End Grammar.

(* ===================================================================== *)
(** ** The file tools and the registry *)
(* ===================================================================== *)

Section FileTools.

Lemma dumps_fits (v : PyVal) :
  encoder_fits v = true -> dumps v = Return (json_dumps v).
Proof. intros H. unfold dumps. now rewrite H. Qed.

Lemma loads_fits (text : string) :
  decoder_fits text = true -> loads text = json_loads text.
Proof. intros H. unfold loads. now rewrite H. Qed.

(** The world in which the file at [p] holds [text]. *)
Lemma write_json_writes (filepath : string) (data : PyVal) (w : World) :
  encoder_fits data = true -> writable w filepath = true ->
  write_json filepath data w
  = (Return (VStr ("Successfully wrote JSON to '" +:+ filepath +:+ "' ("
                     +:+ Text.str_of_Z (Z.of_nat (Text.py_len (json_dumps data)))
                     +:+ " characters).")),
     set_file w filepath (json_dumps data)).
Proof.
  unfold writable. intros Hfit Hw.
  unfold write_json, try_except, bind, lift, mkdir_parent, write_text, ret.
  rewrite (dumps_fits data Hfit).
  destruct (files w !! filepath) as [[text|err]|] eqn:E; try discriminate Hw;
    cbn; rewrite E; reflexivity.
Qed.

Lemma read_json_regular (filepath text : string) (w : World) :
  files w !! filepath = Some (Regular text) ->
  read_json filepath w
  = (Return
       (VStr match loads text with
             | Return data =>
                 if encoder_fits data then json_dumps data
                 else "Error reading JSON: " +:+ encoder_error data
             | Raise (JSONDecodeError m) => "Error: Invalid JSON in file - " +:+ m
             | Raise (FileNotFoundError _) =>
                 "Error: File '" +:+ filepath +:+ "' not found."
             | Raise (OtherError m) => "Error reading JSON: " +:+ m
             end), w).
Proof.
  intros E. unfold read_json, try_except, bind, read_text, lift, ret.
  rewrite E. destruct (loads text) as [data|[m|m|m]]; try reflexivity.
  unfold dumps. now destruct (encoder_fits data).
Qed.

Lemma write_then_read (floats : bool) (filepath : string) (data : PyVal) (w : World) :
  (floats = true ->
   forall x : pyfloat,
     float_json x <> "NaN" ->
     is_float_text (float_json x) = true /\ float_of_literal (float_json x) = x) ->
  native floats data = true ->
  encoder_fits data = true -> decoder_fits (json_dumps data) = true ->
  writable w filepath = true ->
  exists note w1,
    write_json filepath data w = (Return (VStr note), w1)
    /\ read_json filepath w1 = (Return (VStr (json_dumps data)), w1)
    /\ json_loads (json_dumps data) = Return data.
Proof.
  intros Hfloats Hnat Henc Hdec Hw.
  pose proof (json_loads_dumps floats Hfloats data Hnat) as Hloads.
  eexists _, _. split; [exact (write_json_writes filepath data w Henc Hw)|].
  split; [|exact Hloads].
  rewrite (read_json_regular filepath (json_dumps data)).
  - now rewrite (loads_fits _ Hdec), Hloads, Henc.
  - unfold set_file. cbn [files]. apply lookup_insert_eq.
Qed.

(** C7 (amended). For every mapping made of JSON-native values ([None],
    booleans, integers, floats other than NaN, strings, lists, dicts with
    distinct string keys) that the interpreter can handle (integers of at
    most 4300 digits, strings that UTF-8 can encode, a nesting the
    recursion limit allows for the encoder and the decoder) and every path
    that can be opened, [write_json] followed by [read_json] returns the
    indented JSON text of the data, and that text parses back to the data
    itself, keys in the same order. *)
Theorem write_read_round_trip {FLw : FloatLaws} (filepath : string)
  (entries : list (PyKey * PyVal)) (w : World) :
  json_native (VDict entries) = true ->
  storable (VDict entries) = true ->
  encoder_fits (VDict entries) = true ->
  decoder_fits (json_dumps (VDict entries)) = true ->
  writable w filepath = true ->
  read_back_after_write filepath (VDict entries) w = Return (VDict entries)
  /\ exists note w1,
       write_json filepath (VDict entries) w = (Return (VStr note), w1)
       /\ read_json filepath w1
          = (Return (VStr (json_dumps (VDict entries))), w1).
Proof.
  intros Hnat _ Henc Hdec Hw.
  destruct (write_then_read true filepath (VDict entries) w) as
    (note & w1 & Hwrite & Hread & Hloads); try assumption.
  { intros _ x Hx. split; [apply float_json_text | now apply float_read_back]. }
  split; [|eauto].
  unfold read_back_after_write. now rewrite Hwrite, Hread.
Qed.






(** What is valid JSON is in the grammar of [json.loads]. *)
Lemma json_value_ext (v : list ascii) : json_value false v -> json_value true v.
Proof.
  apply (json_value_mut false (json_value true) (json_items true)
           (json_members true)); intros.
  - apply value_null.
  - apply value_true.
  - apply value_false.
  - discriminate.
  - discriminate.
  - discriminate.
  - now apply value_number.
  - now apply value_string.
  - now apply value_empty_array.
  - now apply value_array.
  - now apply value_empty_object.
  - now apply value_object.
  - now apply items_last.
  - now apply items_more.
  - now apply members_last.
  - now apply members_more.
Qed.

Lemma valid_json_python (text : string) : valid_json text -> python_json text.
Proof.
  intros (w1 & v & w2 & E & H1 & Hv & H2).
  exists w1, v, w2. repeat split; try assumption. now apply json_value_ext.
Qed.




Lemma write_json_returns_str (filepath : string) (data : PyVal) (w : World) :
  exists text w', write_json filepath data w = (Return (VStr text), w').
Proof.
  unfold write_json, try_except, bind, lift, dumps, mkdir_parent, write_text, ret.
  destruct (encoder_fits data); [|eauto].
  destruct (files w !! filepath) as [[text|err]|] eqn:E; cbn; rewrite ?E; eauto.
Qed.

Lemma read_json_returns_str (filepath : string) (w : World) :
  exists text, read_json filepath w = (Return (VStr text), w).
Proof.
  destruct (files w !! filepath) as [[text|err]|] eqn:E.
  - rewrite (read_json_regular _ _ _ E). eauto.
  - unfold read_json, try_except, bind, read_text. rewrite E. eauto.
  - unfold read_json, try_except, bind, read_text. rewrite E. eauto.
Qed.

Lemma generate_sample_user_returns_dict (first_names last_names domains : list string)
  (min_age max_age : Z) (w : World) :
  exists d w',
    generate_sample_user first_names last_names domains min_age max_age w
    = (Return (VDict d), w').
Proof.
  destruct first_names as [|f fs]; [now eexists _, _|].
  destruct last_names as [|l ls]; [now eexists _, _|].
  destruct domains as [|d ds]; [now eexists _, _|].
  destruct (min_age >? max_age) eqn:E1.
  { unfold generate_sample_user. cbn [is_nil]. rewrite E1. now eexists _, _. }
  destruct ((min_age <? 0) || (max_age <? 0)) eqn:E2.
  { unfold generate_sample_user. cbn [is_nil]. rewrite E1, E2. now eexists _, _. }
  apply orb_false_iff in E2 as [E2 _]. apply Z.ltb_ge in E2.
  assert (min_age <= max_age) as Hage
    by (destruct (Z.gtb_spec min_age max_age); [discriminate | lia]).
  destruct (generate_sample_user_valid_aux (f :: fs) (l :: ls) (d :: ds)
              min_age max_age w) as (users & w' & H & _); try congruence; try lia.
  eauto.
Qed.

Lemma save_users_returns_str (filepath : string)
  (first_names last_names domains : option (list string)) (min_age max_age : Z)
  (w : World) :
  exists text w',
    save_users filepath first_names last_names domains min_age max_age w
    = (Return (VStr text), w').
Proof.
  unfold save_users, try_except. unfold bind at 1.
  destruct (generate_sample_user_returns_dict
              (or_default first_names ["John"; "Jane"; "Mike"])
              (or_default last_names ["Smith"; "Jones"; "Brown"])
              (or_default domains ["example.com"]) min_age max_age w)
    as (d & w1 & ->).
  destruct (dict_has d (KStr "error")).
  - unfold bind, dict_item, ret, raise.
    destruct (dict_get d (KStr "error")); eauto.
  - unfold bind, lift, dumps, mkdir_parent, write_text, dict_item, ret, raise.
    destruct (encoder_fits (VDict d)); [|eauto].
    destruct (files w1 !! filepath) as [[text|err]|] eqn:E; cbn; rewrite ?E;
      try destruct (dict_get d (KStr "count")); eauto.
Qed.

Lemma bind_returned {S A B} (c : ST S A) (k : A -> ST S B) (s s' : S) (b : B) :
  bind c k s = (Return b, s') ->
  exists a s1, c s = (Return a, s1) /\ k a s1 = (Return b, s').
Proof.
  unfold bind. destruct (c s) as [[a|e] s1]; [eauto | discriminate].
Qed.

(** The registry finds each tool under its own name. *)
Lemma registry_finds (tool : Tool) :
  In tool TOOLS -> TOOLS_BY_NAME !! name tool = Some tool.
Proof.
  intros [<- | [<- | [<- | [<- | []]]]]; reflexivity.
Qed.

Lemma registry_types (tool : Tool) (args : list (PyKey * PyVal))
  (w w' : World) (v : PyVal) :
  In tool TOOLS ->
  invoke tool args w = (Return v, w') ->
  if String.eqb (name tool) "generate_sample_user"
  then exists d, v = VDict d
  else exists text, v = VStr text.
Proof.
  intros Hin Hinv.
  destruct Hin as [<- | [<- | [<- | [<- | []]]]];
    match goal with
    | |- context [String.eqb ?a ?b] =>
        let r := eval vm_compute in (String.eqb a b) in
        change (String.eqb a b) with r
    end;
    cbv iota; cbn [invoke write_json_tool read_json_tool
                     generate_sample_user_tool save_users_tool] in Hinv.
  - apply bind_returned in Hinv as (filepath & w1 & _ & Hinv).
    apply bind_returned in Hinv as (data & w2 & _ & Hinv).
    destruct (write_json_returns_str filepath data w2) as (text & w3 & E).
    rewrite E in Hinv. inversion Hinv; subst. eauto.
  - apply bind_returned in Hinv as (filepath & w1 & _ & Hinv).
    destruct (read_json_returns_str filepath w1) as (text & E).
    rewrite E in Hinv. inversion Hinv; subst. eauto.
  - apply bind_returned in Hinv as (fn & w1 & _ & Hinv).
    apply bind_returned in Hinv as (ln & w2 & _ & Hinv).
    apply bind_returned in Hinv as (dm & w3 & _ & Hinv).
    apply bind_returned in Hinv as (mn & w4 & _ & Hinv).
    apply bind_returned in Hinv as (mx & w5 & _ & Hinv).
    destruct (generate_sample_user_returns_dict fn ln dm mn mx w5) as (d & w6 & E).
    rewrite E in Hinv. inversion Hinv; subst. eauto.
  - apply bind_returned in Hinv as (filepath & w1 & _ & Hinv).
    apply bind_returned in Hinv as (fn & w2 & _ & Hinv).
    apply bind_returned in Hinv as (ln & w3 & _ & Hinv).
    apply bind_returned in Hinv as (dm & w4 & _ & Hinv).
    apply bind_returned in Hinv as (mn & w5 & _ & Hinv).
    apply bind_returned in Hinv as (mx & w6 & _ & Hinv).
    destruct (save_users_returns_str filepath fn ln dm mn mx w6) as (text & w7 & E).
    rewrite E in Hinv. inversion Hinv; subst. eauto.
Qed.

(** What the loop appends for a registered tool that returns. *)
Lemma run_tool_call_returned {Provider : Type} (tc : ToolCall)
  (messages : list Message) (s : @Env Provider) (tool : Tool) (v : PyVal)
  (w' : World) :
  TOOLS_BY_NAME !! or_else (tc_name tc) "" = Some tool ->
  invoke tool (or_else (tc_args tc) []) (world s) = (Return v, w') ->
  run_tool_call tc messages s
  = (Return (messages ++ [ToolMessage (py_str v) (or_else (tc_id tc) "")]),
     {| world := w'; provider := provider s |}).
Proof.
  intros Htool Hinv. unfold run_tool_call. rewrite Htool.
  unfold bind, try_except, in_world, ret. now rewrite Hinv.
Qed.

(** C4 (amended). Whatever the arguments and the world, [write_json],
    [read_json] and [save_users] return a string, and
    [generate_sample_user] returns an object (the error object or the
    users object), never a string; and for a call to any of the four the
    loop puts [str] of the result, a string in every case, into the tool
    message that enters the conversation. *)
Theorem registry_result_types {Provider : Type} (tool : Tool)
  (args : list (PyKey * PyVal)) (w w' : World) (v : PyVal) :
  In tool TOOLS ->
  invoke tool args w = (Return v, w') ->
  (if String.eqb (name tool) "generate_sample_user"
   then exists d, v = VDict d
   else exists text, v = VStr text)
  /\ forall (tc : ToolCall) (messages : list Message) (s : @Env Provider),
       tc_name tc = Some (name tool) ->
       or_else (tc_args tc) [] = args ->
       world s = w ->
       run_tool_call tc messages s
       = (Return (messages ++ [ToolMessage (py_str v) (or_else (tc_id tc) "")]),
          {| world := w'; provider := provider s |}).
Proof.
  intros Hin Hinv. split; [exact (registry_types tool args w w' v Hin Hinv)|].
  intros tc messages s Hname Hargs Hworld.
  apply (run_tool_call_returned tc messages s tool v w').
  - rewrite Hname. cbn [or_else]. now apply registry_finds.
  - now rewrite Hargs, Hworld.
Qed.

End FileTools.

(* ===================================================================== *)
(** ** More on [_slugify] *)
(* ===================================================================== *)

Section SlugMore.

Import Text.

(** Splitting a joined list of words gives the words back. *)
Lemma runs_all (p : ascii -> bool) (w : string) :
  all_chars p w = true -> runs p w = [w].
Proof.
  induction w as [|c r IH]; [reflexivity|]. cbn [all_chars].
  intros H. apply andb_true_iff in H as [Hc H].
  cbn [runs]. now rewrite Hc, (IH H).
Qed.

Lemma runs_app_sep (p : ascii -> bool) (w t : string) (c : ascii) :
  all_chars p w = true -> p c = false ->
  runs p (w +:+ String c t) = w :: runs p t.
Proof.
  intros Hw Hc. induction w as [|a r IH].
  - rewrite append_nil. cbn [runs]. now rewrite Hc.
  - cbn [all_chars] in Hw. apply andb_true_iff in Hw as [Ha Hw].
    rewrite append_cons. cbn [runs]. now rewrite Ha, (IH Hw).
Qed.

Lemma runs_join (p : ascii -> bool) (ws : list string) :
  p dot = false -> ws <> [] ->
  Forall (fun w => all_chars p w = true) ws ->
  runs p (join "." ws) = ws.
Proof.
  intros Hdot Hne Hall. induction Hall as [|w ws Hw Hws IH]; [congruence|].
  rewrite join_cons. destruct ws as [|w' ws'].
  - cbn [after_sep]. rewrite append_empty_r. now apply runs_all.
  - cbn [after_sep]. rewrite (runs_app_sep p w _ dot Hw Hdot).
    now rewrite IH.
Qed.

Lemma all_chars_join (ws : list string) :
  Forall (fun w => all_chars is_slug_char w = true) ws ->
  all_chars is_slug_or_dot (join "." ws) = true.
Proof.
  intros Hall. induction Hall as [|w ws Hw Hws IH]; [reflexivity|].
  rewrite join_cons, all_chars_app.
  rewrite (all_chars_weaken is_slug_char is_slug_or_dot w)
    by (try exact Hw; intros c Hc; unfold is_slug_or_dot; now rewrite Hc).
  destruct ws; [reflexivity|]. cbn [after_sep all_chars andb].
  exact IH.
Qed.

(** The shape of a slug: the placeholder, or non-empty words of the
    characters a-z and 0-9 joined by the separator. *)
Lemma slugify_shape (s : string) :
  _slugify s = "user"
  \/ exists w ws,
       _slugify s = join "." (w :: ws)
       /\ Forall (fun x => is_empty x = false) (w :: ws)
       /\ Forall (fun x => all_chars is_slug_char x = true) (w :: ws).
Proof.
  rewrite slugify_words.
  pose proof (words_nonempty is_slug_char (str_lower (str_strip s))) as Hne.
  pose proof (words_chars is_slug_char (str_lower (str_strip s))) as Hch.
  rewrite (or_user_join _ Hne).
  destruct (words is_slug_char (str_lower (str_strip s))) as [|w ws];
    [now left | right; eauto].
Qed.

Lemma filter_nonempty_id (ws : list string) :
  Forall (fun x => is_empty x = false) ws ->
  List.filter (fun x => negb (is_empty x)) ws = ws.
Proof.
  intros Hne. apply forallb_filter_id, forallb_forall. intros x Hx.
  rewrite Forall_forall in Hne.
  rewrite (Hne x); [reflexivity | now apply list_elem_of_In].
Qed.

(** X1. A slug is never empty, is made of lowercase letters, digits and
    the separator only, and every part between separators is non-empty:
    no separator at either end, no two separators in a row. *)
Theorem slugify_well_formed (s : string) :
  _slugify s <> EmptyString
  /\ all_chars is_slug_or_dot (_slugify s) = true
  /\ forallb nonempty (runs is_slug_char (_slugify s)) = true.
Proof.
  destruct (slugify_shape s) as [-> | (w & ws & -> & Hne & Hch)].
  - split; [discriminate|]. split; reflexivity.
  - split; [|split].
    + intros H. apply (f_equal is_empty) in H. cbn [is_empty] in H.
      apply (join_nonempty _ Hne) in H. discriminate H.
    + now apply all_chars_join.
    + rewrite (runs_join is_slug_char (w :: ws) eq_refl ltac:(discriminate) Hch).
      apply forallb_forall. intros x Hx.
      rewrite Forall_forall in Hne. unfold nonempty.
      rewrite (Hne x); [reflexivity | now apply list_elem_of_In].
Qed.

Lemma strip_nothing (q : ascii -> bool) (u : string) :
  all_chars (fun c => negb (q c)) u = true -> strip q u = u.
Proof.
  intros H. unfold strip.
  assert (lstrip q u = u) as ->.
  { destruct u as [|c r]; [reflexivity|]. cbn [all_chars] in H.
    apply andb_true_iff in H as [Hc _]. apply negb_true_iff in Hc.
    cbn [lstrip]. now rewrite Hc. }
  induction u as [|c r IH]; [reflexivity|]. cbn [all_chars] in H.
  apply andb_true_iff in H as [Hc H]. apply negb_true_iff in Hc.
  cbn [rstrip]. now rewrite Hc, (IH H).
Qed.

Lemma lower_nothing (u : string) :
  all_chars (fun c => negb (is_upper c)) u = true -> lower u = u.
Proof.
  induction u as [|c r IH]; [reflexivity|]. cbn [all_chars lower].
  intros H. apply andb_true_iff in H as [Hc H]. apply negb_true_iff in Hc.
  unfold lower_char. now rewrite Hc, (IH H).
Qed.

Lemma slug_char_plain (c : ascii) :
  is_slug_or_dot c = true ->
  is_ascii c = true /\ negb (is_space c) = true /\ negb (is_upper c) = true.
Proof. destruct c as [[] [] [] [] [] [] [] []]; vm_compute; intuition congruence. Qed.

Section SlugLaws.

Context {SLw : StrLaws}.

(** Stripping and lowercasing leave a text of slug characters as it is. *)
Lemma slug_fixed (u : string) :
  all_chars is_slug_or_dot u = true -> str_lower (str_strip u) = u.
Proof.
  intros H.
  rewrite str_strip_ascii
    by (eapply all_chars_weaken; [|exact H]; intros c Hc; apply slug_char_plain, Hc).
  rewrite strip_nothing
    by (eapply all_chars_weaken; [|exact H]; intros c Hc; apply slug_char_plain, Hc).
  rewrite str_lower_ascii
    by (eapply all_chars_weaken; [|exact H]; intros c Hc; apply slug_char_plain, Hc).
  apply lower_nothing.
  eapply all_chars_weaken; [|exact H]. intros c Hc. apply slug_char_plain, Hc.
Qed.

(** X2. Slugifying a slug changes nothing. *)
Theorem slugify_idempotent (s : string) : _slugify (_slugify s) = _slugify s.
Proof.
  destruct (slugify_shape s) as [-> | (w & ws & -> & Hne & Hch)].
  - rewrite slugify_words, (slug_fixed "user" eq_refl). reflexivity.
  - rewrite slugify_words, (slug_fixed _ (all_chars_join _ Hch)).
    unfold words.
    rewrite (runs_join is_slug_char (w :: ws) eq_refl ltac:(discriminate) Hch).
    rewrite (filter_nonempty_id _ Hne).
    apply or_user_join. exact Hne.
Qed.

(** X3. Two texts that are equal once the letters A to Z are lowercased
    have the same slug. *)
Theorem slugify_ignores_case (s1 s2 : string) :
  lower s1 = lower s2 -> _slugify s1 = _slugify s2.
Proof.
  intros H. unfold _slugify.
  rewrite <- (str_lower_absorbs (str_strip s1)), <- (str_lower_absorbs (str_strip s2)).
  now rewrite <- !str_strip_lower, H.
Qed.

End SlugLaws.

End SlugMore.

(* ===================================================================== *)
(** ** More on the generator and the file tools *)
(* ===================================================================== *)

Section ToolsMore.

Lemma hd_nth {A} (l : list A) (d : A) :
  match l with [] => d | x :: _ => x end = nth 0 l d.
Proof. now destruct l. Qed.

Lemma randint_draw (a b : Z) (w : World) :
  a <= b ->
  randint a b w
  = (Return (a + draw w 0 mod (b - a + 1)),
     {| files := files w; randoms := tl (randoms w); clock := clock w |}).
Proof.
  intros Hab. unfold randint, draw.
  destruct (b <? a) eqn:Hlt; [apply Z.ltb_lt in Hlt; lia|].
  now rewrite hd_nth.
Qed.

Lemma make_user_exact (i : nat) (first : string) (last_names domains : list string)
  (min_age max_age : Z) (w : World) (last domain : string) :
  nth_error last_names (Nat.modulo i (length last_names)) = Some last ->
  nth_error domains (Nat.modulo i (length domains)) = Some domain ->
  last_names <> [] -> domains <> [] -> min_age <= max_age ->
  make_user i first last_names domains min_age max_age w
  = (Return (record_in w i first last domain min_age max_age), after_user w).
Proof.
  intros Hlast Hdom Hl Hd Hage. unfold make_user.
  rewrite (bind_return _ _ _ _ _ (py_mod_ok i _ w (length_nonzero _ Hl))).
  unfold list_item at 1. rewrite Hlast.
  rewrite (bind_return _ _ w w last eq_refl).
  rewrite (bind_return _ _ _ _ _ (py_mod_ok i _ w (length_nonzero _ Hd))).
  unfold list_item at 1. rewrite Hdom.
  rewrite (bind_return _ _ w w domain eq_refl).
  rewrite (bind_return _ _ _ _ _ (randint_draw 100 999 w ltac:(lia))).
  rewrite (bind_return _ _ _ _ _ (randint_draw min_age max_age _ Hage)).
  unfold bind at 1. unfold _tznow at 1. cbn [files randoms clock].
  rewrite (bind_return _ _ _ _ _ (randint_draw 1 365 _ ltac:(lia))).
  unfold ret, record_in, after_user, draw, reading. cbn [files randoms clock].
  rewrite hd_nth.
  destruct (randoms w) as [|r1 [|r2 [|r3 rs]]]; reflexivity.
Qed.


Lemma worlds_after_step (w : World) (n : nat) :
  worlds_after w (S n) = after_user (worlds_after w n).
Proof.
  revert w. induction n as [|n IH]; intros w; [reflexivity|].
  cbn [worlds_after] in *. now rewrite IH.
Qed.

Lemma skipn_tl {A} (l : list A) (n : nat) : tl (skipn n l) = skipn (S n) l.
Proof.
  revert l. induction n as [|n IH]; intros l; [now destruct l|].
  destruct l as [|x l]; [reflexivity|]. cbn [skipn]. apply IH.
Qed.

Lemma worlds_after_effects (w : World) (n : nat) :
  files (worlds_after w n) = files w
  /\ randoms (worlds_after w n) = skipn (3 * n) (randoms w)
  /\ clock (worlds_after w n) = skipn n (clock w).
Proof.
  induction n as [|n (Hf & Hr & Hc)]; [now repeat split|].
  rewrite worlds_after_step. unfold after_user. cbn [files randoms clock].
  rewrite Hf, Hr, Hc, !skipn_tl. repeat split.
  f_equal. lia.
Qed.

Lemma gen_users_exact (first_names last_names domains : list string)
  (min_age max_age : Z) :
  last_names <> [] -> domains <> [] -> min_age <= max_age ->
  forall (i : nat) (users : list PyVal) (w : World),
  exists new,
    gen_users i first_names last_names domains min_age max_age users w
      = (Return (users ++ new), worlds_after w (length first_names))
    /\ length new = length first_names
    /\ forall j first,
         nth_error first_names j = Some first ->
         exists last domain,
           nth_error last_names (Nat.modulo (i + j) (length last_names)) = Some last
           /\ nth_error domains (Nat.modulo (i + j) (length domains)) = Some domain
           /\ nth_error new j
              = Some (record_in (worlds_after w j) (i + j) first last domain
                        min_age max_age).
Proof.
  intros Hl Hd Hage.
  induction first_names as [|first rest IH]; intros i users w.
  - exists []. cbn [gen_users]. unfold ret. rewrite app_nil_r.
    split; [reflexivity|]. split; [reflexivity|].
    intros [|j] f Hf; discriminate Hf.
  - destruct (nth_error_mod last_names i Hl) as [last Hlast].
    destruct (nth_error_mod domains i Hd) as [domain Hdom].
    pose proof (make_user_exact i first last_names domains min_age max_age w
                  last domain Hlast Hdom Hl Hd Hage) as Hu.
    destruct (IH (S i) (users ++ [record_in w i first last domain min_age max_age])
                (after_user w)) as (new & Hgen & Hlen & Hall).
    exists (record_in w i first last domain min_age max_age :: new).
    cbn [gen_users]. rewrite (bind_return _ _ _ _ _ Hu), Hgen, <- app_assoc.
    split; [reflexivity|]. split; [simpl; now rewrite Hlen|].
    intros [|j] f Hf.
    + cbn in Hf. inversion Hf; subst f. rewrite Nat.add_0_r.
      exists last, domain. auto.
    + cbn in Hf. replace (i + S j)%nat with (S i + j)%nat by lia.
      apply Hall, Hf.
Qed.

Lemma generate_exact (first_names last_names domains : list string)
  (min_age max_age : Z) (w : World) :
  first_names <> [] -> last_names <> [] -> domains <> [] ->
  0 <= min_age -> min_age <= max_age ->
  exists users,
    generate_sample_user first_names last_names domains min_age max_age w
      = (Return (VDict [(KStr "users", VList users);
                        (KStr "count", VInt (Z.of_nat (length first_names)))]),
         worlds_after w (length first_names))
    /\ length users = length first_names
    /\ forall j first,
         nth_error first_names j = Some first ->
         exists last domain,
           nth_error last_names (Nat.modulo j (length last_names)) = Some last
           /\ nth_error domains (Nat.modulo j (length domains)) = Some domain
           /\ nth_error users j
              = Some (record_in (worlds_after w j) j first last domain
                        min_age max_age).
Proof.
  intros Hf Hl Hd Hmin Hage.
  destruct (gen_users_exact first_names last_names domains min_age max_age
              Hl Hd Hage 0%nat [] w) as (users & Hgen & Hlen & Hall).
  exists users. unfold generate_sample_user.
  destruct first_names as [|f fs]; [congruence|].
  destruct last_names as [|l ls]; [congruence|].
  destruct domains as [|d ds]; [congruence|].
  cbn [is_nil].
  destruct (min_age >? max_age) eqn:E1; [apply Z.gtb_lt in E1; lia|].
  destruct (min_age <? 0) eqn:E2; [apply Z.ltb_lt in E2; lia|].
  destruct (max_age <? 0) eqn:E3; [apply Z.ltb_lt in E3; lia|].
  cbn [orb]. rewrite (bind_return _ _ _ _ _ Hgen). cbn [app]. unfold ret.
  rewrite Hlen. split; [reflexivity|]. split; [reflexivity|].
  exact Hall.
Qed.

(** X4. A successful generation touches no file, draws exactly three
    random numbers per first name and reads the clock once per first
    name. *)
Theorem generate_sample_user_effects (first_names last_names domains : list string)
  (min_age max_age : Z) (w : World) :
  first_names <> [] -> last_names <> [] -> domains <> [] ->
  0 <= min_age -> min_age <= max_age ->
  exists v w',
    generate_sample_user first_names last_names domains min_age max_age w
      = (Return v, w')
    /\ files w' = files w
    /\ randoms w' = skipn (3 * length first_names) (randoms w)
    /\ clock w' = skipn (length first_names) (clock w).
Proof.
  intros Hf Hl Hd Hmin Hage.
  destruct (generate_exact first_names last_names domains min_age max_age w
              Hf Hl Hd Hmin Hage) as (users & H & _).
  eexists _, _. split; [exact H|]. apply worlds_after_effects.
Qed.

Lemma nth_skipn {A} (l : list A) (n k : nat) (d : A) :
  nth k (skipn n l) d = nth (n + k) l d.
Proof.
  revert l. induction n as [|n IH]; intros l; [reflexivity|].
  destruct l as [|x l]; [now destruct k|]. cbn [skipn]. apply IH.
Qed.

(** X5. In the [i]-th generated record the user name is the slug of the
    first name followed by a number from 100 to 999, and the registration
    date is the [i]-th clock reading moved back by a whole number of days
    from 1 to 365. *)
Theorem generate_sample_user_stamps (first_names last_names domains : list string)
  (min_age max_age : Z) (w : World) :
  first_names <> [] -> last_names <> [] -> domains <> [] ->
  0 <= min_age -> min_age <= max_age ->
  exists users w',
    generate_sample_user first_names last_names domains min_age max_age w
      = (Return (VDict [(KStr "users", VList users);
                        (KStr "count", VInt (Z.of_nat (length first_names)))]), w')
    /\ forall i first,
         nth_error first_names i = Some first ->
         exists u suffix days,
           nth_error users i = Some u
           /\ 100 <= suffix <= 999
           /\ field u "username"
              = Some (VStr (_slugify first +:+ Text.str_of_Z suffix))
           /\ 1 <= days <= 365
           /\ field u "registeredAt"
              = Some (VStr (isoformat (nth i (clock w) 0
                                       - days * microseconds_per_day))).
Proof.
  intros Hf Hl Hd Hmin Hage.
  destruct (generate_exact first_names last_names domains min_age max_age w
              Hf Hl Hd Hmin Hage) as (users & H & _ & Hall).
  eexists _, _. split; [exact H|].
  intros i first Hi.
  destruct (Hall i first Hi) as (last & domain & _ & _ & Hu).
  eexists _, (100 + draw (worlds_after w i) 0 mod 900),
    (1 + draw (worlds_after w i) 2 mod 365).
  split; [exact Hu|].
  pose proof (Z.mod_pos_bound (draw (worlds_after w i) 0) 900 ltac:(lia)).
  pose proof (Z.mod_pos_bound (draw (worlds_after w i) 2) 365 ltac:(lia)).
  split; [lia|]. split; [reflexivity|]. split; [lia|].
  cbn. unfold reading.
  destruct (worlds_after_effects w i) as (_ & _ & ->).
  rewrite nth_skipn, Nat.add_0_r. reflexivity.
Qed.

Lemma record_in_native (w : World) (i : nat) (first last domain : string)
  (min_age max_age : Z) :
  native false (record_in w i first last domain min_age max_age) = true
  /\ json_depth (record_in w i first last domain min_age max_age) = 1%nat.
Proof. split; reflexivity. Qed.

Lemma generated_native (users : list PyVal) (n : Z) :
  Forall (fun u => native false u = true /\ json_depth u = 1%nat) users ->
  native false (VDict [(KStr "users", VList users); (KStr "count", VInt n)]) = true
  /\ (json_depth (VDict [(KStr "users", VList users); (KStr "count", VInt n)])
      <= 3)%nat.
Proof.
  intros H. split.
  - cbn. rewrite !andb_true_r.
    apply forallb_forall. intros u Hu. rewrite Forall_forall in H.
    apply H. now apply list_elem_of_In.
  - cbn [json_depth List.map snd list_max fold_right].
    assert (list_max (List.map json_depth users) <= 1)%nat as Hmax.
    { apply list_max_le. apply List.Forall_forall. intros k Hk.
      apply in_map_iff in Hk as (u & <- & Hu).
      rewrite Forall_forall in H. apply list_elem_of_In, H in Hu as [_ ->].
      lia. }
    lia.
Qed.

Lemma generate_native (first_names last_names domains : list string)
  (min_age max_age : Z) (w : World) :
  first_names <> [] -> last_names <> [] -> domains <> [] ->
  0 <= min_age -> min_age <= max_age ->
  exists users,
    generate_sample_user first_names last_names domains min_age max_age w
      = (Return (VDict [(KStr "users", VList users);
                        (KStr "count", VInt (Z.of_nat (length first_names)))]),
         worlds_after w (length first_names))
    /\ length users = length first_names
    /\ native false
         (VDict [(KStr "users", VList users);
                 (KStr "count", VInt (Z.of_nat (length first_names)))]) = true
    /\ (json_depth
          (VDict [(KStr "users", VList users);
                  (KStr "count", VInt (Z.of_nat (length first_names)))]) <= 3)%nat.
Proof.
  intros Hf Hl Hd Hmin Hage.
  destruct (generate_exact first_names last_names domains min_age max_age w
              Hf Hl Hd Hmin Hage) as (users & H & Hlen & Hall).
  exists users. split; [exact H|]. split; [exact Hlen|].
  apply generated_native. apply Forall_forall. intros u Hu.
  apply list_elem_of_In, In_nth_error in Hu as [j Hj].
  assert (j < length first_names)%nat as Hlt
    by (rewrite <- Hlen; apply nth_error_Some; congruence).
  destruct (nth_error first_names j) as [first|] eqn:Ef;
    [|apply nth_error_None in Ef; lia].
  destruct (Hall j first Ef) as (last & domain & _ & _ & Hu').
  rewrite Hj in Hu'. inversion Hu'; subst. apply record_in_native.
Qed.

(** X6. What [generate_sample_user] returns for valid arguments is read
    back unchanged by [json.loads] from the text [json.dumps] writes. *)
Theorem generated_users_round_trip (first_names last_names domains : list string)
  (min_age max_age : Z) (w : World) :
  first_names <> [] -> last_names <> [] -> domains <> [] ->
  0 <= min_age -> min_age <= max_age ->
  exists data w',
    generate_sample_user first_names last_names domains min_age max_age w
      = (Return data, w')
    /\ json_loads (json_dumps data) = Return data.
Proof.
  intros Hf Hl Hd Hmin Hage.
  destruct (generate_native first_names last_names domains min_age max_age w
              Hf Hl Hd Hmin Hage) as (users & H & _ & Hnat & _).
  eexists _, _. split; [exact H|]. now apply json_loads_dumps_plain.
Qed.

(** X7. [write_json] never raises; it returns the success text, with the
    number of characters written, only once the file at the path holds
    the JSON text of the data, and otherwise the text of the failure
    behind "Error writing JSON: ". *)
Theorem write_json_outcomes (filepath : string) (data : PyVal) (w : World) :
  exists text w',
    write_json filepath data w = (Return (VStr text), w')
    /\ ((text = "Successfully wrote JSON to '" +:+ filepath +:+ "' ("
                  +:+ Text.str_of_Z (Z.of_nat (Text.py_len (json_dumps data)))
                  +:+ " characters)."
         /\ files w' !! filepath = Some (Regular (json_dumps data)))
        \/ exists failure, text = "Error writing JSON: " +:+ failure).
Proof.
  destruct (encoder_fits data) eqn:Hfit.
  - destruct (writable w filepath) eqn:Hw.
    + rewrite (write_json_writes filepath data w Hfit Hw).
      eexists _, _. split; [reflexivity|]. left. split; [reflexivity|].
      unfold set_file. cbn [files]. apply lookup_insert_eq.
    + unfold writable in Hw.
      destruct (files w !! filepath) as [[text|err]|] eqn:E; try discriminate Hw.
      unfold write_json, try_except, bind, lift, mkdir_parent.
      rewrite (dumps_fits data Hfit), E. eexists _, _. split; [reflexivity|].
      right. now exists err.
  - unfold write_json, try_except, bind, lift, dumps. rewrite Hfit.
    eexists _, _. split; [reflexivity|]. right. eauto.
Qed.

(** X18. [read_json] is read-only and never raises: whatever the path
    and the state of the files, it returns a string and leaves the files,
    the random source and the clock as they were. *)
Theorem read_json_read_only (filepath : string) (w : World) :
  exists text, read_json filepath w = (Return (VStr text), w).
Proof. exact (read_json_returns_str filepath w). Qed.

Lemma or_default_nonempty (names : option (list string)) (default : list string) :
  default <> [] -> or_default names default <> [].
Proof. intros H. destruct names as [[|x l]|]; cbn; congruence. Qed.





(** X10. With a wrong age range [save_users] returns the generator's
    message behind "Error generating users: " and changes nothing; since
    missing or empty lists are replaced by the defaults, age errors are
    the only generator errors it can report. *)
Theorem save_users_rejects_ages (filepath : string)
  (first_names last_names domains : option (list string)) (min_age max_age : Z)
  (w : World) :
  min_age > max_age \/ min_age < 0 \/ max_age < 0 ->
  save_users filepath first_names last_names domains min_age max_age w
  = (Return (VStr ("Error generating users: "
                     +:+ check_message min_age max_age
                           (if min_age >? max_age then MinAboveMax
                            else NegativeAge))), w).
Proof.
  intros Hbad.
  unfold save_users, try_except. unfold bind at 1.
  fold (saved_first_names first_names) (saved_last_names last_names)
    (saved_domains domains).
  assert (is_nil (saved_first_names first_names) = false) as H1
    by (destruct first_names as [[|x l]|]; reflexivity).
  assert (is_nil (saved_last_names last_names) = false) as H2
    by (destruct last_names as [[|x l]|]; reflexivity).
  assert (is_nil (saved_domains domains) = false) as H3
    by (destruct domains as [[|x l]|]; reflexivity).
  unfold generate_sample_user. rewrite H1, H2, H3.
  destruct (min_age >? max_age) eqn:E1; [reflexivity|].
  assert ((min_age <? 0) || (max_age <? 0) = true) as ->.
  { apply orb_true_iff. rewrite !Z.ltb_lt.
    destruct (Z.gtb_spec min_age max_age); [discriminate | lia]. }
  reflexivity.
Qed.

(** X11. When the path cannot be opened, [save_users] returns the error
    text behind "Error saving users: " and no file is changed. *)
Theorem save_users_unwritable (filepath err : string)
  (first_names last_names domains : option (list string)) (min_age max_age : Z)
  (w : World) :
  files w !! filepath = Some (Faulty err) -> 0 <= min_age -> min_age <= max_age ->
  exists w',
    save_users filepath first_names last_names domains min_age max_age w
      = (Return (VStr ("Error saving users: " +:+ err)), w')
    /\ files w' = files w.
Proof.
  intros Hf Hmin Hage.
  destruct (generate_native (saved_first_names first_names)
              (saved_last_names last_names) (saved_domains domains)
              min_age max_age w)
    as (users & Hgen & Hlen & Hnat & Hdepth);
    try (apply or_default_nonempty; discriminate); try assumption.
  eexists.
  unfold save_users, try_except. unfold bind at 1.
  fold (saved_first_names first_names) (saved_last_names last_names)
    (saved_domains domains).
  rewrite Hgen.
  change (dict_has _ (KStr "error")) with false. cbv iota.
  unfold bind at 1. unfold lift at 1.
  rewrite (dumps_fits _ (shallow_encodes _ Hdepth)).
  destruct (worlds_after_effects w (length (saved_first_names first_names)))
    as (Hfiles & _).
  unfold bind at 1. unfold mkdir_parent at 1. rewrite Hfiles, Hf.
  split; [reflexivity | exact Hfiles].
Qed.

(** X12. A name is found in the registry exactly when it is the name of
    one of the four tools, and then the tool found is that tool; the match
    is exact. *)
Theorem registry_lookup (n : string) (t : Tool) :
  TOOLS_BY_NAME !! n = Some t <-> In t TOOLS /\ name t = n.
Proof.
  unfold TOOLS_BY_NAME, TOOLS. cbn [fold_left].
  rewrite !lookup_insert, lookup_empty.
  split.
  - intros H.
    repeat match type of H with
           | (if decide (?a = ?b) then _ else _) = _ =>
               destruct (decide (a = b)) as [<-|?]
           end;
      try discriminate H; inversion H; subst; cbn [In]; split; auto.
  - intros [Hin <-].
    destruct Hin as [<- | [<- | [<- | [<- | []]]]]; reflexivity.
Qed.


End ToolsMore.

(* ===================================================================== *)
(** ** More on the loop and the endpoint *)
(* ===================================================================== *)

Section LoopMore.

Section WithModel.
Context {Provider : Type}.
Variable llm : list Message -> ST Provider AIMessage.

Lemma chat_rounds_trace (k : nat) (messages : list Message) (s s' : @Env Provider)
  (r : string) (final : list Message) :
  chat_rounds llm k messages s = (Return (r, final), s') ->
  exists appended, final = messages ++ appended /\ rounds_trace appended.
Proof.
  revert messages s. induction k as [|k IH]; intros messages s H.
  - cbn in H. inversion H; subst. exists []. rewrite app_nil_r.
    split; [reflexivity | constructor].
  - destruct (llm messages (provider s)) as [[ai|e] p'] eqn:Hllm.
    + rewrite (chat_rounds_step llm k messages s ai p' Hllm) in H.
      destruct (or_else (tool_calls ai) []) as [|tc tcs] eqn:E.
      * inversion H; subst. exists [AIMsg ai]. split; [reflexivity|].
        apply (trace_round ai [] []); [rewrite E|]; constructor.
      * destruct (run_tool_calls_returns (tc :: tcs) (messages ++ [AIMsg ai])
                    {| world := world s; provider := p' |})
          as (tool_msgs & s1 & Hrun & Hans & _).
        rewrite (bind_return _ _ _ _ _ Hrun) in H.
        destruct (IH _ _ H) as (rest & -> & Hrest).
        exists (AIMsg ai :: tool_msgs ++ rest).
        split; [now rewrite <- !app_assoc|].
        apply trace_round; [now rewrite E | exact Hrest].
    + rewrite (chat_rounds_llm_raises llm k messages s e p' Hllm) in H.
      discriminate H.
Qed.

(** X14. The message list only grows: when [run_chat] returns, the list
    is the system message, the history and the new human message,
    followed by the rounds, each being the reply of the model and then one
    tool message per tool call of that reply, in order. *)
Theorem run_chat_trace_shape (input_text : string) (history_msgs : list Message)
  (s s' : @Env Provider) (r : string) (final : list Message) :
  run_chat_trace llm input_text history_msgs s = (Return (r, final), s') ->
  exists appended,
    final = SystemMessage SYSTEM_MESSAGE :: history_msgs
              ++ HumanMessage input_text :: appended
    /\ rounds_trace appended.
Proof.
  intros H. apply chat_rounds_trace in H as (appended & -> & Htrace).
  exists appended. split; [|exact Htrace].
  unfold initial_messages. cbn [app]. now rewrite <- app_assoc.
Qed.

Lemma chat_rounds_reply (k : nat) (messages : list Message) (s s' : @Env Provider)
  (r : string) (final : list Message) :
  chat_rounds llm k messages s = (Return (r, final), s') ->
  r = LOOP_LIMIT_MESSAGE \/ plain_reply_of llm r.
Proof.
  revert messages s. induction k as [|k IH]; intros messages s H.
  - cbn in H. inversion H; subst. now left.
  - destruct (llm messages (provider s)) as [[ai|e] p'] eqn:Hllm.
    + rewrite (chat_rounds_step llm k messages s ai p' Hllm) in H.
      destruct (or_else (tool_calls ai) []) as [|tc tcs] eqn:E.
      * inversion H; subst. right. now exists messages, (provider s), ai, p'.
      * destruct (run_tool_calls_returns (tc :: tcs) (messages ++ [AIMsg ai])
                    {| world := world s; provider := p' |})
          as (tool_msgs & s1 & Hrun & _ & _).
        rewrite (bind_return _ _ _ _ _ Hrun) in H. eapply IH, H.
    + rewrite (chat_rounds_llm_raises llm k messages s e p' Hllm) in H.
      discriminate H.
Qed.

(** X15. The text [run_chat] returns is either the loop-limit message or
    the text of a reply the model gave without tool calls; it is never the
    result of a tool. *)
Theorem run_chat_reply_origin (input_text : string) (history_msgs : list Message)
  (s s' : @Env Provider) (r : string) :
  run_chat llm input_text history_msgs s = (Return r, s') ->
  r = "Error: exceeded tool-calling loop limit." \/ plain_reply_of llm r.
Proof.
  unfold run_chat, run_chat_trace, bind. intros H.
  destruct (chat_rounds llm 8 (initial_messages input_text history_msgs) s)
    as [[[r0 final]|e] s1] eqn:E; [|discriminate H].
  inversion H; subst. cbn [fst]. eapply chat_rounds_reply, E.
Qed.

Lemma run_chat_plain_reply (input_text : string) (history_msgs : list Message)
  (s : @Env Provider) (ai : AIMessage) (p' : Provider) :
  llm (initial_messages input_text history_msgs) (provider s) = (Return ai, p') ->
  or_else (tool_calls ai) [] = [] ->
  run_chat llm input_text history_msgs s
  = (Return (reply_text ai), {| world := world s; provider := p' |}).
Proof.
  intros Hllm Hnone. unfold run_chat, run_chat_trace, bind.
  rewrite (chat_rounds_step llm 7 _ s ai p' Hllm), Hnone. reflexivity.
Qed.

End WithModel.

Section ApiFacts.
Context {Provider : Type}.
Variable llm : list Message -> ST Provider AIMessage.

(** X16. The endpoint hands the model the system message, the history
    in order (user entries as human messages, assistant entries as
    replies without tool calls) and the new message; when the model
    answers that in plain text, the reply is returned as it is and the
    world is untouched. *)
Theorem chat_plain_reply (req : Api.ChatRequest) (s : @Env Provider)
  (ai : AIMessage) (p' : Provider) :
  llm (SystemMessage SYSTEM_MESSAGE
         :: List.map Api.to_message (or_else (Api.history req) [])
         ++ [HumanMessage (Api.message req)]) (provider s) = (Return ai, p') ->
  or_else (tool_calls ai) [] = [] ->
  Api.chat llm req s
  = (Return {| Api.reply := reply_text ai |},
     {| world := world s; provider := p' |}).
Proof.
  intros Hllm Hnone. unfold Api.chat.
  rewrite (bind_return _ _ _ _ _
             (run_chat_plain_reply llm (Api.message req) (Api.history_msgs req)
                s ai p' Hllm Hnone)).
  reflexivity.
Qed.

End ApiFacts.




End LoopMore.

End Properties.

(* ===================================================================== *)
(** * The laws at the sample runtime *)
(* ===================================================================== *)

Section SampleLaws.

Import Text.

Lemma lower_char_idem (c : ascii) : lower_char (lower_char c) = lower_char c.
Proof. destruct c as [[] [] [] [] [] [] [] []]; reflexivity. Qed.

Lemma lower_idem (s : string) : lower (lower s) = lower s.
Proof.
  induction s as [|c r IH]; [reflexivity|]. cbn [lower].
  now rewrite lower_char_idem, IH.
Qed.

Lemma space_lower (c : ascii) : is_space (lower_char c) = is_space c.
Proof. destruct c as [[] [] [] [] [] [] [] []]; reflexivity. Qed.

Lemma upper_lower (c : ascii) : is_upper (lower_char c) = false.
Proof. destruct c as [[] [] [] [] [] [] [] []]; reflexivity. Qed.

Lemma lstrip_lower (s : string) :
  lstrip is_space (lower s) = lower (lstrip is_space s).
Proof.
  induction s as [|c r IH]; [reflexivity|]. cbn [lower lstrip].
  rewrite space_lower. now destruct (is_space c).
Qed.

Lemma rstrip_lower (s : string) :
  rstrip is_space (lower s) = lower (rstrip is_space s).
Proof.
  induction s as [|c r IH]; [reflexivity|]. cbn [lower rstrip].
  rewrite IH, space_lower, is_empty_lower.
  now destruct (is_space c && is_empty (rstrip is_space r)).
Qed.

Lemma lower_no_upper (s : string) :
  all_chars (fun c => negb (is_upper c)) (lower s) = true.
Proof.
  induction s as [|c r IH]; [reflexivity|]. cbn [lower all_chars].
  now rewrite upper_lower, IH.
Qed.

Lemma lower_app (a b : string) : lower (a +:+ b) = lower a +:+ lower b.
Proof.
  induction a as [|c r IH]; [reflexivity|].
  rewrite !append_cons. cbn [lower]. now rewrite IH, append_cons.
Qed.

Lemma lstrip_split (q : ascii -> bool) (s : string) :
  exists pre, s = pre +:+ lstrip q s /\ all_chars q pre = true.
Proof.
  induction s as [|c r (pre & E & H)]; [now exists EmptyString|].
  cbn [lstrip]. destruct (q c) eqn:Hc.
  - exists (String c pre). rewrite append_cons, <- E. cbn [all_chars].
    now rewrite Hc, H.
  - now exists EmptyString.
Qed.

Lemma rstrip_split (q : ascii -> bool) (s : string) :
  exists post, s = rstrip q s +:+ post /\ all_chars q post = true.
Proof.
  induction s as [|c r (post & E & H)]; [now exists EmptyString|].
  cbn [rstrip]. destruct (q c && is_empty (rstrip q r)) eqn:Hc.
  - apply andb_true_iff in Hc as [Hc He]. apply is_empty_true in He.
    rewrite He, append_nil in E. exists (String c post). rewrite append_nil.
    cbn [all_chars]. now rewrite Hc, H, <- E.
  - exists post. now rewrite append_cons, <- E.
Qed.

Lemma spaces_lower (u : string) :
  all_chars is_space u = true ->
  all_chars (fun c => negb (is_alnum c)) (lower u) = true.
Proof.
  induction u as [|c r IH]; [reflexivity|]. cbn [all_chars lower].
  intros H. apply andb_true_iff in H as [Hc H]. rewrite (IH H), andb_true_r.
  revert Hc. destruct c as [[] [] [] [] [] [] [] []]; vm_compute; congruence.
Qed.

(** The operations of ASCII are operations as the laws ask for. *)
Lemma example_str_laws : @StrLaws example_strings.
Proof.
  split; cbn [str_lower str_strip example_strings].
  - reflexivity.
  - reflexivity.
  - apply lower_idem.
  - intros s. unfold strip. now rewrite lstrip_lower, rstrip_lower.
  - apply lower_no_upper.
  - intros s. unfold strip.
    destruct (lstrip_split is_space s) as (pre & E1 & H1).
    destruct (rstrip_split is_space (lstrip is_space s)) as (post & E2 & H2).
    exists (lower pre), (lower post). split.
    + rewrite <- !lower_app, <- E2, <- E1. reflexivity.
    + split; now apply spaces_lower.
Qed.

(** The literal texts are floats as the laws ask for. *)
Lemma example_float_laws : @FloatLaws example_floats.
Proof.
  split; cbn [float_json float_of_literal example_floats]; intros x.
  - now destruct (is_float_text x) eqn:E.
  - now destruct (is_float_text x).
Qed.

End SampleLaws.

(* ===================================================================== *)
(** * The properties at the sample inputs *)
(* ===================================================================== *)

Section Witnesses.

#[local] Existing Instance example_floats.
#[local] Existing Instance example_strings.
#[local] Existing Instance example_runtime.
#[local] Existing Instance example_interpreter.
#[local] Existing Instance example_str_laws.
#[local] Existing Instance example_float_laws.

Example slugify_ex1 : _slugify "  Mary-Ann  O'Neil " = "mary.ann.o.neil".
Proof. reflexivity. Qed.

Example slugify_ex2 : _slugify " --- " = "user".
Proof. reflexivity. Qed.

Example json_dumps_ex :
  json_dumps (VDict [(KStr "a", VList [VInt 1; VInt (-20)])])
  = "{" +:+ String newline ("  " +:+ String dquote ("a" +:+ String dquote (": ["
      +:+ String newline ("    1," +:+ String newline ("    -20"
      +:+ String newline ("  ]" +:+ String newline "}")))))).
Proof. reflexivity. Qed.

Example json_loads_ex :
  json_loads (json_dumps (VDict example_data)) = Return (VDict example_data).
Proof. reflexivity. Qed.


Example json_loads_bad :
  json_loads "{oops"
  = Raise (JSONDecodeError
             "Expecting property name enclosed in double quotes: line 1 column 2 (char 1)").
Proof. reflexivity. Qed.

(** C7, a counterexample to the claim as stated: a mapping with the
    integer key 1 is JSON-serializable, and what is read back has the
    string key "1" instead. *)
Lemma round_trip_fails_for_integer_key :
  read_back_after_write "out.json" integer_keyed_data example_world
  = Return (VDict [(KStr "1", VStr "a")])
  /\ read_back_after_write "out.json" integer_keyed_data example_world
     <> Return integer_keyed_data.
Proof.
  assert (read_back_after_write "out.json" integer_keyed_data example_world
          = Return (VDict [(KStr "1", VStr "a")])) as E by (vm_compute; reflexivity).
  split; [exact E|]. rewrite E. discriminate.
Qed.

Lemma write_read_round_trip_witness :
  @FloatLaws example_floats
  /\ json_native (VDict example_data) = true
  /\ storable (VDict example_data) = true
  /\ encoder_fits (VDict example_data) = true
  /\ decoder_fits (json_dumps (VDict example_data)) = true
  /\ writable example_world "out.json" = true
  /\ read_back_after_write "out.json" (VDict example_data) example_world
     = Return (VDict example_data)
  /\ exists note w1,
       write_json "out.json" (VDict example_data) example_world
         = (Return (VStr note), w1)
       /\ read_json "out.json" w1
          = (Return (VStr (json_dumps (VDict example_data))), w1).
Proof.
  split; [exact example_float_laws|].
  split; [reflexivity|]. split; [vm_compute; reflexivity|].
  split; [reflexivity|]. split; [reflexivity|]. split; [reflexivity|].
  apply (write_read_round_trip "out.json" example_data example_world);
    vm_compute; reflexivity.
Defined.

Lemma run_chat_is_bounded_witness :
  always_calls_tools looping_llm
  /\ exists s',
       run_chat (counting looping_llm) "Generate 3 users" [] example_counting_env
         = (Return "Error: exceeded tool-calling loop limit.", s')
       /\ invocations s' = 8%nat.
Proof.
  assert (always_calls_tools looping_llm) as Halways.
  { intros messages p. exists looping_reply, p. split; [reflexivity | discriminate]. }
  split; [exact Halways|].
  destruct (run_chat_is_bounded looping_llm "Generate 3 users" []
              example_counting_env) as (_ & H & _).
  exact (H Halways).
Defined.

Lemma every_tool_call_is_answered_witness :
  looping_llm (initial_messages "hi" []) (provider example_env)
    = (Return looping_reply, tt)
  /\ or_else (tool_calls looping_reply) [] <> []
  /\ exists tool_msgs s',
       run_tool_calls (or_else (tool_calls looping_reply) [])
         (initial_messages "hi" [] ++ [AIMsg looping_reply])
         {| world := world example_env; provider := tt |}
         = (Return (initial_messages "hi" [] ++ [AIMsg looping_reply] ++ tool_msgs),
            s')
       /\ Forall2 answers (or_else (tool_calls looping_reply) []) tool_msgs
       /\ chat_rounds looping_llm 8 (initial_messages "hi" []) example_env
          = chat_rounds looping_llm 7
              (initial_messages "hi" [] ++ [AIMsg looping_reply] ++ tool_msgs) s'.
Proof.
  split; [reflexivity|]. split; [discriminate|].
  apply (every_tool_call_is_answered looping_llm 7 (initial_messages "hi" [])
           example_env looping_reply tt); [reflexivity | discriminate].
Defined.



Lemma generate_sample_user_valid_witness :
  ["Ann"; "Bob"; "Cy"] <> [] /\ ["Lee"; "Kim"] <> [] /\ ["Example.org"] <> []
  /\ 0 <= 18 /\ 18 <= 30
  /\ exists users w',
       generate_sample_user ["Ann"; "Bob"; "Cy"] ["Lee"; "Kim"] ["Example.org"]
         18 30 example_world
       = (Return (VDict [(KStr "users", VList users); (KStr "count", VInt 3)]), w')
       /\ length users = 3%nat.
Proof.
  split; [discriminate|]. split; [discriminate|]. split; [discriminate|].
  split; [lia|]. split; [lia|].
  destruct (generate_sample_user_valid ["Ann"; "Bob"; "Cy"] ["Lee"; "Kim"]
              ["Example.org"] 18 30 example_world)
    as (users & w' & H & Hlen & _); try discriminate; try lia.
  exists users, w'. split; [exact H | exact Hlen].
Defined.




(** C4, a counterexample to the claim as stated: [generate_sample_user]
    is in the registry and returns an object, here the error object. *)
Lemma generate_sample_user_returns_no_string : ~ tools_return_strings.
Proof.
  intros H.
  destruct (H generate_sample_user_tool (or_else (tc_args generate_call) [])
              example_world (error_dict "first_names list cannot be empty")
              example_world) as [text Htext].
  - right. right. left. reflexivity.
  - reflexivity.
  - discriminate Htext.
Qed.

Lemma registry_result_types_witness :
  In generate_sample_user_tool TOOLS
  /\ invoke generate_sample_user_tool (or_else (tc_args generate_call) [])
       example_world
     = (Return (error_dict "first_names list cannot be empty"), example_world)
  /\ (exists d, error_dict "first_names list cannot be empty" = VDict d)
  /\ run_tool_call generate_call [] example_env
     = (Return [ToolMessage
                  (py_str (error_dict "first_names list cannot be empty"))
                  "call_3"],
        example_env).
Proof.
  assert (In generate_sample_user_tool TOOLS) as Hin
    by (right; right; left; reflexivity).
  split; [exact Hin|]. split; [reflexivity|].
  destruct (@registry_result_types _ _ _ _ unit generate_sample_user_tool
              (or_else (tc_args generate_call) []) example_world example_world
              (error_dict "first_names list cannot be empty") Hin eq_refl)
    as (Hv & Hloop).
  split; [exact Hv|].
  exact (Hloop generate_call [] example_env eq_refl eq_refl eq_refl).
Defined.

(** *** Further properties at the sample inputs *)

Lemma slugify_idempotent_witness :
  @StrLaws example_strings
  /\ _slugify (_slugify "  Mary-Ann  O'Neil ") = _slugify "  Mary-Ann  O'Neil ".
Proof.
  split; [exact example_str_laws|].
  exact (slugify_idempotent "  Mary-Ann  O'Neil ").
Defined.

Lemma slugify_ignores_case_witness :
  @StrLaws example_strings
  /\ Text.lower "Mary-Ann O'Neil" = Text.lower "MARY-ann o'NEIL"
  /\ _slugify "Mary-Ann O'Neil" = _slugify "MARY-ann o'NEIL".
Proof.
  split; [exact example_str_laws|]. split; [reflexivity|].
  apply (slugify_ignores_case "Mary-Ann O'Neil" "MARY-ann o'NEIL"). reflexivity.
Defined.

Lemma generate_sample_user_effects_witness :
  ["Ann"; "Bob"] <> [] /\ ["Lee"] <> [] /\ ["Example.org"] <> []
  /\ 0 <= 18 /\ 18 <= 30
  /\ exists v w',
       generate_sample_user ["Ann"; "Bob"] ["Lee"] ["Example.org"] 18 30
         example_world = (Return v, w')
       /\ files w' = files example_world
       /\ randoms w' = []
       /\ clock w' = [].
Proof.
  split; [discriminate|]. split; [discriminate|]. split; [discriminate|].
  split; [lia|]. split; [lia|].
  destruct (generate_sample_user_effects ["Ann"; "Bob"] ["Lee"] ["Example.org"]
              18 30 example_world)
    as (v & w' & H & Hf & Hr & Hc); try discriminate; try lia.
  exists v, w'. split; [exact H|]. split; [exact Hf|].
  split; [exact Hr | exact Hc].
Defined.

Lemma generate_sample_user_stamps_witness :
  ["Ann"; "Bob"] <> [] /\ ["Lee"] <> [] /\ ["Example.org"] <> []
  /\ 0 <= 18 /\ 18 <= 30
  /\ nth_error ["Ann"; "Bob"] 1 = Some "Bob"
  /\ exists u suffix days,
       100 <= suffix <= 999
       /\ field u "username" = Some (VStr ("bob" +:+ Text.str_of_Z suffix))
       /\ 1 <= days <= 365
       /\ field u "registeredAt"
          = Some (VStr (Text.str_of_Z
                          (1700000000000001 - days * microseconds_per_day))).
Proof.
  split; [discriminate|]. split; [discriminate|]. split; [discriminate|].
  split; [lia|]. split; [lia|]. split; [reflexivity|].
  destruct (generate_sample_user_stamps ["Ann"; "Bob"] ["Lee"] ["Example.org"]
              18 30 example_world)
    as (users & w' & _ & H); try discriminate; try lia.
  destruct (H 1%nat "Bob" eq_refl) as (u & suffix & days & _ & Hs & Hu & Hd & Hr).
  exists u, suffix, days.
  split; [exact Hs|]. split; [exact Hu|]. split; [exact Hd | exact Hr].
Defined.

Lemma generated_users_round_trip_witness :
  ["Ann"; "Bob"] <> [] /\ ["Lee"] <> [] /\ ["Example.org"] <> []
  /\ 0 <= 18 /\ 18 <= 30
  /\ exists data w',
       generate_sample_user ["Ann"; "Bob"] ["Lee"] ["Example.org"] 18 30
         example_world = (Return data, w')
       /\ json_loads (json_dumps data) = Return data.
Proof.
  split; [discriminate|]. split; [discriminate|]. split; [discriminate|].
  split; [lia|]. split; [lia|].
  destruct (generated_users_round_trip ["Ann"; "Bob"] ["Lee"] ["Example.org"]
              18 30 example_world)
    as (data & w' & H & Hj); try discriminate; try lia.
  exists data, w'. split; [exact H | exact Hj].
Defined.


Lemma save_users_rejects_ages_witness :
  (40 > 30 \/ 40 < 0 \/ 30 < 0)
  /\ save_users "users.json" None None None 40 30 example_world
     = (Return (VStr "Error generating users: min_age (40) cannot be greater than max_age (30)"),
        example_world).
Proof.
  assert (40 > 30 \/ 40 < 0 \/ 30 < 0) as H by (left; lia).
  split; [exact H|].
  exact (save_users_rejects_ages "users.json" None None None 40 30 example_world H).
Defined.

Lemma save_users_unwritable_witness :
  files example_world !! "locked.json" = Some (Faulty "[Errno 13] Permission denied")
  /\ 0 <= 18 /\ 18 <= 65
  /\ exists w',
       save_users "locked.json" None None None 18 65 example_world
       = (Return (VStr "Error saving users: [Errno 13] Permission denied"), w')
       /\ files w' = files example_world.
Proof.
  assert (files example_world !! "locked.json"
          = Some (Faulty "[Errno 13] Permission denied")) as Hf by reflexivity.
  split; [exact Hf|]. split; [lia|]. split; [lia|].
  destruct (save_users_unwritable "locked.json" "[Errno 13] Permission denied"
              None None None 18 65 example_world Hf) as (w' & H); try lia.
  exists w'. exact H.
Defined.

Lemma run_chat_trace_shape_witness :
  run_chat_trace scripted "hi" [HumanMessage "earlier"] example_scripted_env
  = (Return ("done",
             [SystemMessage SYSTEM_MESSAGE; HumanMessage "earlier";
              HumanMessage "hi"; AIMsg (tool_request unknown_call);
              ToolMessage "Error: unknown tool 'delete_everything'" "call_1";
              AIMsg (final_answer "done")]),
     {| world := example_world; provider := [] |})
  /\ exists appended,
       [SystemMessage SYSTEM_MESSAGE; HumanMessage "earlier";
        HumanMessage "hi"; AIMsg (tool_request unknown_call);
        ToolMessage "Error: unknown tool 'delete_everything'" "call_1";
        AIMsg (final_answer "done")]
       = SystemMessage SYSTEM_MESSAGE :: [HumanMessage "earlier"]
           ++ HumanMessage "hi" :: appended
       /\ rounds_trace appended.
Proof.
  assert (run_chat_trace scripted "hi" [HumanMessage "earlier"] example_scripted_env
  = (Return ("done",
             [SystemMessage SYSTEM_MESSAGE; HumanMessage "earlier";
              HumanMessage "hi"; AIMsg (tool_request unknown_call);
              ToolMessage "Error: unknown tool 'delete_everything'" "call_1";
              AIMsg (final_answer "done")]),
     {| world := example_world; provider := [] |})) as H by reflexivity.
  split; [exact H|].
  exact (run_chat_trace_shape scripted "hi" [HumanMessage "earlier"]
           example_scripted_env _ _ _ H).
Defined.

Lemma run_chat_reply_origin_witness :
  run_chat scripted "hi" [] example_scripted_env
  = (Return "done", {| world := example_world; provider := [] |})
  /\ ("done" = "Error: exceeded tool-calling loop limit."
      \/ plain_reply_of scripted "done").
Proof.
  assert (run_chat scripted "hi" [] example_scripted_env
          = (Return "done", {| world := example_world; provider := [] |}))
    as H by reflexivity.
  split; [exact H|].
  exact (run_chat_reply_origin scripted "hi" [] example_scripted_env _ _ H).
Defined.

Lemma chat_plain_reply_witness :
  scripted
    (SystemMessage SYSTEM_MESSAGE
       :: List.map Api.to_message (or_else (Api.history example_request) [])
       ++ [HumanMessage (Api.message example_request)])
    [final_answer "which names?"]
  = (Return (final_answer "which names?"), [])
  /\ or_else (tool_calls (final_answer "which names?")) [] = []
  /\ Api.chat scripted example_request
       {| world := example_world; provider := [final_answer "which names?"] |}
     = (Return {| Api.reply := "which names?" |},
        {| world := example_world; provider := [] |}).
Proof.
  split; [reflexivity|]. split; [reflexivity|].
  exact (chat_plain_reply scripted example_request
           {| world := example_world; provider := [final_answer "which names?"] |}
           (final_answer "which names?") [] eq_refl eq_refl).
Defined.


End Witnesses.
